(** * Kosik: line breaking and page composition

    A shallow embedding of the text layout engine of Kosik
    ([src/text/tokens.rs], [src/text.rs]) and of its page compositor
    ([src/document.rs], [src/document/compositor.rs]).

    Conventions of the embedding:
    - [usize] values are [nat]; an unsigned subtraction or a division
      that panics in Rust goes through [usize_sub] / [usize_div], which
      return [None] on underflow or division by zero.  Every function
      that can panic returns an [option], [None] standing for a panic.
    - [i32] values are [Z].  The row counts cast with [as i32] are far
      below [2^31], so the casts are written as [Z.of_nat].
    - [String] values are Rocq [string]s; one [ascii] character stands
      for one Unicode code point, so [chars().count()] is
      [String.length].
    - Bit flags ([DisplayFlags], [FormatFlags]) are [Z] bit masks. *)

From Stdlib Require Import ZArith Lia Ascii String.
From stdpp Require Import base list gmap strings.


(* ------------------------------------------------------------------ *)
(** ** Unsigned arithmetic that panics *)

Definition usize_sub (a b : nat) : option nat :=
  if Nat.leb b a then Some (a - b) else None.

Definition usize_div (a b : nat) : option nat :=
  if Nat.eqb b 0 then None else Some (a / b).

(** [&xs[i..j]]: panics unless [i <= j <= xs.len()]. *)
Definition slice {A} (xs : list A) (i j : nat) : option (list A) :=
  if Nat.leb i j && Nat.leb j (length xs) then Some (take (j - i) (drop i xs))
  else None.

(** [xs.windows(2)], as the consecutive pairs of a list. *)
Fixpoint windows2 {A} (xs : list A) : list (A * A) :=
  match xs with
  | a :: ((b :: _) as t) => (a, b) :: windows2 t
  | _ => []
  end.

(** [xs.iter().sum()] *)
Definition sum_nat (xs : list nat) : nat := foldr Nat.add 0 xs.

(* ------------------------------------------------------------------ *)
(** ** Tokens ([src/text/tokens.rs]) *)

Module DisplayFlags.
Definition EM  : Z := 1.
Definition SUB : Z := 2.
Definition SUP : Z := 4.
End DisplayFlags.

Module FormatFlags.
Definition FS  : Z := 1.
Definition DLB : Z := 2.
Definition MLB : Z := 4.
Definition DOB : Z := 8.
End FormatFlags.

(** [bitflags]' [intersects] *)
Definition intersects (a b : Z) : bool := negb (Z.eqb (Z.land a b) 0).

(** [Token<Data>] *)
Record Token (Data : Type) := mkToken { data : Data; dpy : Z; frm : Z }.
Arguments mkToken {Data} _ _ _.
Arguments data {Data} _.
Arguments dpy {Data} _.
Arguments frm {Data} _.

(** [CloseData], [NoteRefData], [OpenData], [PunctData], [SpaceData],
    [SymbolData] and [WordData] all hold one [text : String]. *)
Record TextData := mkTextData { text : string }.

(** [LineBreakData {}] *)
Record LineBreakData := mkLineBreakData {}.

Inductive TokenType :=
| Close     (t : Token TextData)
| LineBreak (t : Token LineBreakData)
| NoteRef   (t : Token TextData)
| Open      (t : Token TextData)
| Punct     (t : Token TextData)
| Space     (t : Token TextData)
| Symbol    (t : Token TextData)
| Word      (t : Token TextData).

(** [TokenType::length] *)
Definition token_length (t : TokenType) : nat :=
  match t with
  | Close tk | NoteRef tk | Open tk | Punct tk | Space tk | Symbol tk
  | Word tk => String.length (text (data tk))
  | LineBreak _ => 0
  end.

(** [TokenType::display_flags] *)
Definition display_flags (t : TokenType) : Z :=
  match t with
  | Close tk | NoteRef tk | Open tk | Punct tk | Space tk | Symbol tk
  | Word tk => dpy tk
  | LineBreak tk => dpy tk
  end.

(** [TokenType::format_flags] *)
Definition format_flags (t : TokenType) : Z :=
  match t with
  | Close tk | NoteRef tk | Open tk | Punct tk | Space tk | Symbol tk
  | Word tk => frm tk
  | LineBreak tk => frm tk
  end.

(** [TokenType::text] *)
Definition token_text (t : TokenType) : string :=
  match t with
  | Close tk | NoteRef tk | Open tk | Punct tk | Space tk | Symbol tk
  | Word tk => text (data tk)
  | LineBreak _ => EmptyString
  end.

(** Constructors used in the doc tests: [Token::from("foo")] for a word,
    [Token::from(n)] for [n] spaces (discretionary, discard on break). *)
Definition word (s : string) : TokenType := Word (mkToken (mkTextData s) 0 0).

Fixpoint spaces (n : nat) : string :=
  match n with 0 => ""%string | S n' => String " "%char (spaces n') end.

Definition space (n : nat) : TokenType :=
  Space (mkToken (mkTextData (spaces n)) 0
                 (Z.lor FormatFlags.DLB FormatFlags.DOB)).

Definition line_break : TokenType :=
  LineBreak (mkToken mkLineBreakData 0 FormatFlags.MLB).

(* ------------------------------------------------------------------ *)
(** ** Segments and lines ([src/text.rs]) *)

Module Segment.
Record t := mk { text : string; ps : string }.
End Segment.
Abbreviation Segment := Segment.t.

Module Line.
Record t := mk { column : nat; segments : list Segment; note_refs : list string }.
(** [Line::length] *)
Definition length (l : t) : nat :=
  sum_nat (map (fun s => String.length (Segment.text s)) (segments l)).
End Line.
Abbreviation Line := Line.t.

(** [Regex::new(pat).replace_all(s, rep)] for the one-character
    patterns of [Segment::from]. *)
Fixpoint replace_char (c : ascii) (rep : string) (s : string) : string :=
  match s with
  | EmptyString => EmptyString
  | String a s' =>
      if Ascii.eqb a c then (rep ++ replace_char c rep s')%string
      else String a (replace_char c rep s')
  end.

Definition backslash : ascii := Ascii.ascii_of_nat 92.

(** [impl From<&str> for Segment] (and [From<String>], identical) *)
Definition segment_of_str (s : string) : Segment :=
  let ps := replace_char backslash (String backslash (String backslash ""%string)) s in
  let ps := replace_char "("%char (String backslash "("%string) ps in
  let ps := replace_char ")"%char (String backslash ")"%string) ps in
  Segment.mk s ("(" ++ ps ++ ") show ")%string.

(** [impl From<Segment> for Line] *)
Definition line_of_segment (s : Segment) : Line := Line.mk 0 [s] [].

(** The loop body of [impl From<&[TokenType]> for Segment]: the text
    and the escaped Postscript text of the tokens. *)
Fixpoint segment_body (ts : list TokenType) (txt ps : string) : string * string :=
  match ts with
  | [] => (txt, ps)
  | t :: ts' =>
      match t with
      | Close tk =>
          let s := text (data tk) in
          segment_body ts' (txt ++ s)
            (ps ++ (if String.eqb s ")" then String backslash ")" else s))
      | NoteRef tk | Punct tk | Space tk | Word tk =>
          let s := text (data tk) in
          segment_body ts' (txt ++ s) (ps ++ s)
      | Open tk =>
          let s := text (data tk) in
          segment_body ts' (txt ++ s)
            (ps ++ (if String.eqb s "(" then String backslash "(" else s))
      | Symbol tk =>
          let s := text (data tk) in
          segment_body ts' (txt ++ s)
            (ps ++ (if String.eqb s (String backslash "")
                    then String backslash (String backslash "") else s))
      | LineBreak _ => segment_body ts' txt ps
      end
  end%string.

(** [impl From<&[TokenType]> for Segment] *)
Definition segment_of_tokens (tokens : list TokenType) : Segment :=
  (let dpy := match tokens with t :: _ => display_flags t | [] => 0%Z end in
  let prefix :=
    if intersects dpy DisplayFlags.SUB then "0 -6 rmoveto "
    else if intersects dpy DisplayFlags.SUP then "0 6 rmoveto " else "" in
  let '(txt, ps) := segment_body tokens "" (prefix ++ "(") in
  let ps := ps ++ ") " in
  let ps := ps ++ (if intersects dpy DisplayFlags.EM then "ushow " else "show ") in
  let ps := ps ++ (if intersects dpy DisplayFlags.SUB then "0 6 rmoveto "
                   else if intersects dpy DisplayFlags.SUP then "0 -6 rmoveto "
                   else "") in
  Segment.mk txt ps)%string.
Arguments segment_of_tokens : simpl never.

(** The loop of [impl From<&[TokenType]> for Line]: the note
    references, and the indices where the display state changes. *)
Fixpoint line_scan (tokens : list TokenType) (i : nat) (dpy : Z)
    (note_refs : list string) (state_changes : list nat) : list string * list nat :=
  match tokens with
  | [] => (note_refs, state_changes)
  | t :: ts =>
      match t with
      | LineBreak _ => line_scan ts (S i) dpy note_refs state_changes
      | NoteRef tk =>
          if negb (Z.eqb dpy (display_flags t))
          then line_scan ts (S i) (display_flags t) (note_refs ++ [text (data tk)])
                 (state_changes ++ [i])
          else line_scan ts (S i) dpy (note_refs ++ [text (data tk)]) state_changes
      | Close tk | Open tk | Punct tk | Space tk | Symbol tk | Word tk =>
          if negb (Z.eqb dpy (display_flags t))
          then line_scan ts (S i) (display_flags t) note_refs (state_changes ++ [i])
          else line_scan ts (S i) dpy note_refs state_changes
      end
  end.

(** [while let Some(state_change) = iter.next()] over
    [state_changes.windows(2)]. *)
Fixpoint line_segments (tokens : list TokenType) (ws : list (nat * nat))
    (segments : list Segment) : option (list Segment) :=
  match ws with
  | [] => Some segments
  | (i, j) :: ws' =>
      d ← usize_sub j i;
      if Nat.ltb 0 d then
        sl ← slice tokens i j;
        line_segments tokens ws' (segments ++ [segment_of_tokens sl])
      else line_segments tokens ws' segments
  end.

(** [impl From<&[TokenType]> for Line] *)
Definition line_of_tokens (tokens : list TokenType) : option Line :=
  let dpy := match tokens with t :: _ => display_flags t | [] => 0%Z end in
  let '(note_refs, state_changes) := line_scan tokens 0 dpy [] [0] in
  let state_changes := state_changes ++ [length tokens] in
  segments ← line_segments tokens (windows2 state_changes) [];
  Some (Line.mk 0 segments note_refs).

(* ------------------------------------------------------------------ *)
(** ** Line breaking ([src/text.rs]) *)

Definition is_mlb (t : TokenType) : bool := intersects (format_flags t) FormatFlags.MLB.
Definition is_dlb (t : TokenType) : bool := intersects (format_flags t) FormatFlags.DLB.
Definition is_dob (t : TokenType) : bool := intersects (format_flags t) FormatFlags.DOB.

(** The [while j < tokens.len()] loop of [next_word_fits], over
    [tokens[j..]] with the accumulated width [u]. *)
Fixpoint next_word_fits_loop (rest : list TokenType) (line_length u : nat) : bool :=
  match rest with
  | [] => Nat.leb u line_length
  | t :: rest' =>
      let len := token_length t in
      if is_mlb t then Nat.leb u line_length
      else if is_dlb t then
        (if is_dob t then Nat.leb u line_length else Nat.leb (u + len) line_length)
      else next_word_fits_loop rest' line_length (u + len)
  end.

(** [next_word_fits]; [tokens[i]] panics out of range. *)
Definition next_word_fits (tokens : list TokenType) (line_length i x : nat) : option bool :=
  t ← tokens !! i;
  Some (next_word_fits_loop (drop (i + 1) tokens) line_length (x + token_length t)).

(** The loop [for (i, token) in tokens.iter().enumerate()] of
    [linebreak_fill]: [rest] is [tokens[i..]], [x] the width of the
    current line, [splits] the [(index, discard)] pairs pushed so far. *)
Fixpoint fill_loop (tokens : list TokenType) (line_length : nat)
    (rest : list TokenType) (i x : nat) (splits : list (nat * bool))
    : option (list (nat * bool)) :=
  match rest with
  | [] => Some splits
  | token :: rest' =>
      if is_mlb token then
        fill_loop tokens line_length rest' (S i) 0 (splits ++ [(i + 1, true)])
      else if is_dlb token then
        fits ← next_word_fits tokens line_length i x;
        if negb fits then
          fill_loop tokens line_length rest' (S i) 0 (splits ++ [(i + 1, is_dob token)])
        else fill_loop tokens line_length rest' (S i) (x + token_length token) splits
      else fill_loop tokens line_length rest' (S i) (x + token_length token) splits
  end.

(** The [while let Some(split) = iter.next()] loop over
    [splits.windows(2)] shared by [linebreak_fill] and
    [linebreak_balance]. *)
Fixpoint split_lines (tokens : list TokenType) (ws : list ((nat * bool) * (nat * bool)))
    (lines : list Line) : option (list Line) :=
  match ws with
  | [] => Some lines
  | (s0, s1) :: ws' =>
      let i := fst s0 in
      j ← (if snd s1 then usize_sub (fst s1) 1   (* discard the current token *)
           else Some (fst s1));                    (* retain the current token *)
      d ← usize_sub j i;
      if Nat.ltb 0 d then
        sl ← slice tokens i j;
        line ← line_of_tokens sl;
        split_lines tokens ws' (lines ++ [line])
      else split_lines tokens ws' lines
  end.

(** [linebreak_fill] *)
Definition linebreak_fill (tokens : list TokenType) (line_length : nat) : option (list Line) :=
  splits ← fill_loop tokens line_length tokens 0 0 [(0, false)];
  let splits := splits ++ [(length tokens, false)] in
  split_lines tokens (windows2 splits) [].

(** The token loop of [linebreak_balance], breaking against [cutoff]. *)
Fixpoint balance_loop (cutoff : nat) (rest : list TokenType) (i x : nat)
    (splits : list (nat * bool)) : list (nat * bool) :=
  match rest with
  | [] => splits
  | token :: rest' =>
      if is_mlb token then balance_loop cutoff rest' (S i) 0 (splits ++ [(i + 1, true)])
      else if is_dlb token then
        if Nat.leb cutoff (x + token_length token) then
          balance_loop cutoff rest' (S i) 0 (splits ++ [(i + 1, is_dob token)])
        else balance_loop cutoff rest' (S i) (x + token_length token) splits
      else balance_loop cutoff rest' (S i) (x + token_length token) splits
  end.

(** [linebreak_balance] *)
Definition linebreak_balance (tokens : list TokenType) (line_length : nat) : option (list Line) :=
  let text_length := foldl (fun sum token => sum + token_length token) 0 tokens in
  h ← usize_div text_length line_length;
  let height := h + 1 in
  cutoff ← usize_div text_length height;
  let splits := balance_loop cutoff tokens 0 0 [(0, false)] in
  let splits := splits ++ [(length tokens, false)] in
  split_lines tokens (windows2 splits) [].

(** [document::INDENT] *)
Definition INDENT : nat := 5.

(** The token loop of [linebreak_hang]; [line_length] is the mutable
    budget, reduced at the first break of the DLB branch. *)
Fixpoint hang_loop (tokens : list TokenType) (rest : list TokenType) (i x line_length : nat)
    (splits : list (nat * bool)) : option (list (nat * bool)) :=
  match rest with
  | [] => Some splits
  | token :: rest' =>
      if is_mlb token then
        hang_loop tokens rest' (S i) 0 line_length (splits ++ [(i + 1, true)])
      else if is_dlb token then
        fits ← next_word_fits tokens line_length i x;
        if negb fits then
          let splits := splits ++ [(i + 1, is_dob token)] in
          line_length' ← (if Nat.eqb (length splits) 2 then (* first break *)
                            m ← usize_sub line_length 1;
                            usize_sub line_length (Nat.min INDENT m)
                          else Some line_length);
          hang_loop tokens rest' (S i) 0 line_length' splits
        else hang_loop tokens rest' (S i) (x + token_length token) line_length splits
      else hang_loop tokens rest' (S i) (x + token_length token) line_length splits
  end.

(** [line.segments.insert(0, Segment::from(&indent[..]))] *)
Definition indent_line (indent : string) (line : Line) : Line :=
  Line.mk (Line.column line) (segment_of_str indent :: Line.segments line) (Line.note_refs line).

(** The line loop of [linebreak_hang]: every line but the first emitted
    one gets the indent segment. *)
Fixpoint hang_lines (tokens : list TokenType) (indent : string)
    (ws : list ((nat * bool) * (nat * bool))) (lines : list Line) : option (list Line) :=
  match ws with
  | [] => Some lines
  | (s0, s1) :: ws' =>
      let i := fst s0 in
      j ← (if snd s1 then usize_sub (fst s1) 1 else Some (fst s1));
      d ← usize_sub j i;
      if Nat.ltb 0 d then
        sl ← slice tokens i j;
        line ← line_of_tokens sl;
        let line := match lines with [] => line | _ :: _ => indent_line indent line end in
        hang_lines tokens indent ws' (lines ++ [line])
      else hang_lines tokens indent ws' lines
  end.

(** [linebreak_hang] *)
Definition linebreak_hang (tokens : list TokenType) (first_line_length : nat) : option (list Line) :=
  splits ← hang_loop tokens tokens 0 0 first_line_length [(0, false)];
  let splits := splits ++ [(length tokens, false)] in
  hang_lines tokens (spaces INDENT) (windows2 splits) [].

(** The texts of a line's segments, to read results off. *)
Definition line_texts (l : Line) : list string := map Segment.text (Line.segments l).

(** The total width of a token list, as [Line::length] measures it. *)
Definition width (ts : list TokenType) : nat := sum_nat (map token_length ts).
Arguments width : simpl never.

(** The widths of a line's segments. *)
Definition seg_width (segs : list Segment) : nat :=
  sum_nat (map (fun s => String.length (Segment.text s)) segs).

(** A legal break point: a [MandatoryBreak] or [DiscretionaryBreak]
    candidate. *)
Definition is_break_candidate (t : TokenType) : bool := is_mlb t || is_dlb t.

(** [tokens[i..j]] is a single run of tokens between two legal break
    points: it starts at the start of the input or right after a break
    candidate, holds no break candidate except possibly as its last token,
    and ends at the end of the input, right before a break candidate or
    with one. *)
Definition unbreakable_run (tokens : list TokenType) (i j : nat) : Prop :=
  i < j <= length tokens /\
  (i = 0 \/ exists t, tokens !! (i - 1) = Some t /\ is_break_candidate t = true) /\
  (forall k t, i <= k -> k + 1 < j -> tokens !! k = Some t -> is_break_candidate t = false) /\
  (j = length tokens \/
   (exists t, tokens !! j = Some t /\ is_break_candidate t = true) \/
   (exists t, tokens !! (j - 1) = Some t /\ is_break_candidate t = true)).

(* ------------------------------------------------------------------ *)
(** ** Blocks and pages ([src/document.rs]) *)

Definition LEFT_MARGIN : nat := 10.
Definition RIGHT_MARGIN : nat := 74.
Definition TOP_LINE : nat := 59.
Definition BOTTOM_LINE : nat := 6.
Definition CHAPTER_SKIP : nat := 11.

Inductive LineSpacing := Single | Double.
Inductive Tag := Contact | Head | ToC.

Definition is_double (s : LineSpacing) : bool :=
  match s with Double => true | Single => false end.

(** [Vec::is_empty] *)
Definition is_empty {A} (l : list A) : bool :=
  match l with [] => true | _ :: _ => false end.

Set Warnings "-register-all".

Module Block.
(** [struct Block]; a footnote is a [BlockList] under a label. *)
Inductive t := mk {
  lines : list Line;
  footnotes : list (string * list t);
  line_spacing : LineSpacing;
  padding_before : Z;
  padding_after : nat;
  tag : option Tag }.

(** [Block::count_lines]: [self.lines.len() * 2 - 1] underflows on an
    empty double-spaced block. *)
Definition count_lines (b : t) : option nat :=
  match line_spacing b with
  | Double => usize_sub (length (lines b) * 2) 1
  | Single => Some (length (lines b))
  end.
End Block.
Abbreviation Block := Block.t.
Abbreviation BlockList := (list Block).

(** The loop of [document::count_lines]. *)
Fixpoint count_lines_loop (blocks : BlockList) (i n last_padding_after : nat) : option nat :=
  match blocks with
  | [] => Some n
  | block :: blocks' =>
      let n := if Nat.ltb 0 i && Z.leb 0 (Block.padding_before block)
               then n + Nat.max (Z.to_nat (Block.padding_before block)) last_padding_after
               else n in
      c ← Block.count_lines block;
      count_lines_loop blocks' (S i) (n + c) (Block.padding_after block)
  end.

(** [document::count_lines] *)
Definition count_lines (blocks : BlockList) : option nat := count_lines_loop blocks 0 0 0.

Module Page.
Record t := mk {
  number : Z;
  height : nat;
  lines : list (option Line);
  footer : list (option Line) }.
End Page.
Abbreviation Page := Page.t.

(* ------------------------------------------------------------------ *)
(** ** The compositor ([src/document/compositor.rs]) *)

Record Compositor := mkCompositor {
  contact : option Block;
  pages : list Page;
  footnotes : gmap string BlockList;
  first_page : Z;
  next_page_no : Z;
  has_structure : bool;
  last_padding_after : nat }.

Definition set_contact (c : Compositor) v : Compositor :=
  mkCompositor v (pages c) (footnotes c) (first_page c) (next_page_no c) (has_structure c) (last_padding_after c).
Definition set_pages (c : Compositor) v : Compositor :=
  mkCompositor (contact c) v (footnotes c) (first_page c) (next_page_no c) (has_structure c) (last_padding_after c).
Definition set_footnotes (c : Compositor) v : Compositor :=
  mkCompositor (contact c) (pages c) v (first_page c) (next_page_no c) (has_structure c) (last_padding_after c).
Definition set_next_page_no (c : Compositor) v : Compositor :=
  mkCompositor (contact c) (pages c) (footnotes c) (first_page c) v (has_structure c) (last_padding_after c).
Definition set_last_padding_after (c : Compositor) v : Compositor :=
  mkCompositor (contact c) (pages c) (footnotes c) (first_page c) (next_page_no c) (has_structure c) v.

(** [Compositor::new] *)
Definition new (first_page : Z) (has_structure : bool) : Compositor :=
  mkCompositor None [] ∅ first_page (-1) has_structure 0.

(** [i32] addition wraps around at [i32::MAX] (the release build, whose
    arithmetic is unchecked; a debug build panics there instead). *)
Definition i32_wrap (z : Z) : Z := ((z + 2 ^ 31) mod 2 ^ 32 - 2 ^ 31)%Z.

(** [Compositor::start_a_new_page]; [self.next_page_no += 1] is an
    [i32] addition. *)
Definition start_a_new_page (c : Compositor) : Compositor :=
  let page := Page.mk (next_page_no c) (TOP_LINE - BOTTOM_LINE + 1) [] [] in
  set_next_page_no (set_pages c (pages c ++ [page])) (i32_wrap (next_page_no c + 1)).

(** [Compositor::cur_page]: [assert!(!self.pages.is_empty())]. *)
Definition cur_page (c : Compositor) : option Page := last (pages c).

Definition update_cur_page (f : Page -> Page) (c : Compositor) : option Compositor :=
  match last (pages c) with
  | None => None
  | Some p => Some (set_pages c (removelast (pages c) ++ [f p]))
  end.

(** [self.cur_page().lines.push(l)] *)
Definition push_line (l : option Line) : Compositor -> option Compositor :=
  update_cur_page (fun p => Page.mk (Page.number p) (Page.height p) (Page.lines p ++ [l]) (Page.footer p)).

(** [self.cur_page().footer.push(l)] *)
Definition push_footer (l : option Line) : Compositor -> option Compositor :=
  update_cur_page (fun p => Page.mk (Page.number p) (Page.height p) (Page.lines p) (Page.footer p ++ [l])).

(** [for _ in 0..padding { self.cur_page().lines.push(None) }] *)
Fixpoint push_blank_rows (n : nat) (c : Compositor) : option Compositor :=
  match n with
  | 0 => Some c
  | S n' => c ← push_line None c; push_blank_rows n' c
  end.

(** [compose_block], counting the footnote lines of a line:
    [for label in line.note_refs.iter()]. *)
Fixpoint footer_height_loop (fns : gmap string BlockList) (labels : list string)
    (footer_height j : nat) : option nat :=
  match labels with
  | [] => Some footer_height
  | label :: labels' =>
      let footer_height := if Nat.ltb 0 j then footer_height + 1 else footer_height in
      match fns !! label with
      | Some footnote =>
          n ← count_lines footnote;
          footer_height_loop fns labels' (footer_height + n) (S j)
      | None => footer_height_loop fns labels' footer_height j
      end
  end.

(** [for (k, line) in block.lines.into_iter().enumerate()] inside the
    footnote placement; [m] is the number of blocks of the footnote, [j]
    the index of this one, [n] its number of lines.  [m - 1] and [n - 1]
    are evaluated inside the loops, where [m, n >= 1]. *)
Fixpoint place_block_lines (c : Compositor) (m j : nat) (spacing : LineSpacing)
    (n k : nat) (lines : list Line) : option Compositor :=
  match lines with
  | [] => Some c
  | line :: lines' =>
      c ← push_footer (Some line) c;
      c ← (if (Nat.ltb j (m - 1) || Nat.ltb k (n - 1)) && is_double spacing
           then push_footer None c else Some c);
      place_block_lines c m j spacing n (S k) lines'
  end.

(** [for (j, block) in blocks.into_iter().enumerate()] *)
Fixpoint place_footnote_blocks (c : Compositor) (m j : nat) (blocks : BlockList)
    : option Compositor :=
  match blocks with
  | [] => Some c
  | block :: blocks' =>
      c ← place_block_lines c m j (Block.line_spacing block)
            (length (Block.lines block)) 0 (Block.lines block);
      place_footnote_blocks c m (S j) blocks'
  end.

(** "Add any footnotes to the current page": each pending footnote a
    label names is removed from the table and placed in the footer. *)
Fixpoint place_footnotes (c : Compositor) (labels : list string) : option Compositor :=
  match labels with
  | [] => Some c
  | label :: labels' =>
      match footnotes c !! label with
      | Some blocks =>
          let c := set_footnotes c (delete label (footnotes c)) in
          p ← cur_page c;
          c ← (if negb (is_empty (Page.footer p)) then push_footer None c else Some c);
          c ← place_footnote_blocks c (length blocks) 0 blocks;
          place_footnotes c labels'
      | None => place_footnotes c labels'
      end
  end.

(** The body of [for (i, line) in block.lines.into_iter().enumerate()]
    in [compose_block]; [page_height] is [block.lines.len()], so
    [page_height - 1] does not underflow inside the loop. *)
Definition compose_line (c : Compositor) (spacing : LineSpacing) (page_height i : nat)
    (line : Line) : option Compositor :=
  c ← (if negb (is_empty (Line.note_refs line)) then
         footer_height ← footer_height_loop (footnotes c) (Line.note_refs line) 0 0;
         p ← cur_page c;
         let remainder := (Z.of_nat (Page.height p) - Z.of_nat (length (Page.lines p)) - 1
                           - Z.of_nat footer_height - 2)%Z in
         let remainder := if negb (is_empty (Page.footer p))
                          then (remainder - 1 - Z.of_nat (length (Page.footer p)))%Z
                          else remainder in
         let c := if Z.ltb remainder 1 then start_a_new_page c else c in
         place_footnotes c (Line.note_refs line)
       else Some c);
  p ← cur_page c;
  let remainder := (Z.of_nat (Page.height p) - Z.of_nat (length (Page.lines p)) - 1)%Z in
  let remainder := if negb (is_empty (Page.footer p))
                   then (remainder - (Z.of_nat (length (Page.footer p)) + 2))%Z
                   else remainder in
  let c := if Z.ltb remainder 1 then start_a_new_page c else c in
  c ← push_line (Some line) c;
  if Nat.ltb i (page_height - 1) && is_double spacing then
    p ← cur_page c;
    free ← usize_sub (Page.height p) (length (Page.lines p));
    if Nat.ltb 1 free then push_line None c else Some c
  else Some c.

Fixpoint compose_lines (c : Compositor) (spacing : LineSpacing) (page_height i : nat)
    (lines : list Line) : option Compositor :=
  match lines with
  | [] => Some c
  | line :: lines' =>
      c ← compose_line c spacing page_height i line;
      compose_lines c spacing page_height (S i) lines'
  end.

(** "Transfer footnotes to the hash map." *)
Definition add_footnotes (fns : gmap string BlockList) (defs : list (string * BlockList))
    : gmap string BlockList :=
  foldl (fun m '(label, footnote) => <[label := footnote]> m) fns defs.

(** [Compositor::compose_block] *)
Definition compose_block (c : Compositor) (block : Block) : option Compositor :=
  let c := set_footnotes c (add_footnotes (footnotes c) (Block.footnotes block)) in
  compose_lines c (Block.line_spacing block) (length (Block.lines block)) 0 (Block.lines block).

(** [Compositor::compose].  The [&mut i32] [padding_before] of the
    caller is written before it is read, so it is a local here. *)
Definition compose (c : Compositor) (block : Block) : option Compositor :=
  let '(c, padding_before) :=
    if Z.ltb (Block.padding_before block) 0
    then (set_last_padding_after (start_a_new_page c) 0, (- Block.padding_before block - 1)%Z)
    else (c, Block.padding_before block) in
  let padding := Nat.max (Z.to_nat padding_before) (last_padding_after c) in
  let c := set_last_padding_after c (Block.padding_after block) in
  c ← push_blank_rows padding c;
  compose_block c block.


(** Decimal digits of a natural number, most significant first; [fuel]
    bounds the number of digits. *)
Fixpoint digits_of_N (fuel : nat) (n : N) (acc : string) : string :=
  match fuel with
  | 0 => acc
  | S fuel' =>
      let acc := String (Ascii.ascii_of_N (48 + N.modulo n 10)) acc in
      if N.ltb n 10 then acc else digits_of_N fuel' (N.div n 10) acc
  end.

(** [format!("{}", page_no)] for an [i32]: at most ten digits. *)
Definition string_of_Z (z : Z) : string :=
  if Z.ltb z 0 then String "-"%char (digits_of_N 10 (Z.to_N (- z)) EmptyString)
  else digits_of_N 10 (Z.to_N z) EmptyString.

(** [repeat(s).take(n).collect::<String>()] *)
Fixpoint repeat_str (s : string) (n : nat) : string :=
  match n with 0 => EmptyString | S n' => (s ++ repeat_str s n')%string end.

(** The entry loop of [compose_toc]: each entry's first line is extended
    with a dot leader and its page number. *)
Fixpoint toc_entries (c : Compositor) (blocks : list (Z * Block)) : option Compositor :=
  match blocks with
  | [] => Some c
  | (page_no, block) :: blocks' =>
      match Block.lines block with
      | [] => toc_entries c blocks'
      | line :: rest =>
          let line_length := RIGHT_MARGIN - LEFT_MARGIN + 1 in
          let n := Line.length line in
          let page_no_string := string_of_Z page_no in
          let p := String.length page_no_string in
          spaces_remaining ← (a ← usize_sub line_length n; usize_sub a p);
          '(spaces_remaining, before_pad) ←
            (if Nat.eqb (n mod 2) 1
             then r ← usize_sub spaces_remaining 1; Some (r, " "%string)
             else r ← usize_sub spaces_remaining 2; Some (r, "  "%string));
          let after_pad := if Nat.eqb (p mod 2) 0 then " "%string else EmptyString in
          let dots := repeat_str ". " (spaces_remaining / 2) in
          let s := segment_of_str (before_pad ++ dots ++ after_pad ++ page_no_string)%string in
          let line := Line.mk (Line.column line) (Line.segments line ++ [s]) (Line.note_refs line) in
          let block := Block.mk (line :: rest) (Block.footnotes block) (Block.line_spacing block)
                         (Block.padding_before block) (Block.padding_after block) (Block.tag block) in
          pg ← cur_page c;
          let remainder := (Z.of_nat (Page.height pg) - Z.of_nat (length (Page.lines pg)) - 1 - 1)%Z in
          cl ← Block.count_lines block;
          let c := if Z.ltb remainder (Z.of_nat cl)
                   then set_last_padding_after (start_a_new_page c) 0 else c in
          c ← compose c block;
          toc_entries c blocks'
      end
  end.

(** [Compositor::compose_toc] *)
Definition compose_toc (c : Compositor) (blocks : list (Z * Block)) : option Compositor :=
  let center := LEFT_MARGIN + (RIGHT_MARGIN - LEFT_MARGIN) / 2 in
  let s := segment_of_str "Table of Contents" in
  let n := String.length (Segment.text s) in
  column ← (a ← usize_sub center (n / 2); usize_sub a (n mod 2));
  let header := Line.mk column [s] [] in
  let c := set_next_page_no c (-1) in
  c ← compose c (Block.mk [header] [] Single (-1) CHAPTER_SKIP (Some ToC));
  toc_entries c blocks.

(** The block loop of [Compositor::run]; ToC entries are collected with
    the number of the page current when they were met. *)
Fixpoint run_loop (c : Compositor) (toc : list (Z * Block)) (blocks : BlockList)
    : option (Compositor * list (Z * Block)) :=
  match blocks with
  | [] => Some (c, toc)
  | block :: blocks' =>
      match Block.tag block with
      | Some Contact => run_loop (set_contact c (Some block)) toc blocks'
      | Some Head => c ← compose c block; run_loop c toc blocks'
      | Some ToC => p ← cur_page c; run_loop c (toc ++ [(Page.number p, block)]) blocks'
      | None => c ← compose c block; run_loop c toc blocks'
      end
  end.

(** [Compositor::run] *)
Definition run (c : Compositor) (blocks : BlockList) : option Compositor :=
  let c := if is_empty (pages c) then
             if has_structure c then set_next_page_no (start_a_new_page c) (first_page c)
             else start_a_new_page (set_next_page_no c (first_page c))
           else c in
  '(c, toc) ← run_loop c [] blocks;
  if is_empty toc then Some c else compose_toc c toc.

(** ** Auxiliary notions of the proofs *)

(** The width of the first [k] tokens. *)
Definition W (ts : list TokenType) (k : nat) : nat := width (take k ts).

(** The list is sorted. *)
Fixpoint chain_le (l : list nat) : Prop :=
  match l with
  | a :: ((b :: _) as t) => a <= b /\ chain_le t
  | _ => True
  end.

(** The last element of [h :: t]. *)
Fixpoint last_of (h : nat) (t : list nat) : nat :=
  match t with [] => h | x :: t' => last_of x t' end.

(** The end of the range cut by a split [(index, discard)]. *)
Definition split_end (s1 : nat * bool) : nat := if snd s1 then fst s1 - 1 else fst s1.

(** A pair of consecutive splits describes a range of the token list. *)
Definition window_valid (n : nat) (w : (nat * bool) * (nat * bool)) : Prop :=
  (snd (snd w) = true -> 1 <= fst (snd w)) /\
  fst (fst w) <= split_end (snd w) /\ split_end (snd w) <= n.

(** The range of a window fits the budget or is an unbreakable run. *)
Definition window_fits (tokens : list TokenType) (ll : nat) (w : (nat * bool) * (nat * bool)) : Prop :=
  let i := fst (fst w) in let j := split_end (snd w) in
  width (take (j - i) (drop i tokens)) <= ll \/ (i < j -> unbreakable_run tokens i j).

(** A line emitted by [split_lines] comes from one of the windows. *)
Definition from_window (tokens : list TokenType) (ws : list ((nat * bool) * (nat * bool)))
    (line : Line) : Prop :=
  exists w sl, w ∈ ws /\ fst (fst w) < split_end (snd w) /\
    slice tokens (fst (fst w)) (split_end (snd w)) = Some sl /\ line_of_tokens sl = Some line.

(** Where a line may start: at the input start or after a candidate. *)
Definition line_start_ok (tokens : list TokenType) (s : nat) : Prop :=
  s = 0 \/ exists t, tokens !! (s - 1) = Some t /\ is_break_candidate t = true.

(** Either the line so far is one unbreakable run, or the last
    discretionary candidate on it was passed over because the text up to
    the next candidate fits. *)
Definition fill_inv (tokens : list TokenType) (ll s i x : nat) : Prop :=
  (forall k t, s <= k -> k < i -> tokens !! k = Some t -> is_break_candidate t = false) \/
  next_word_fits_loop (drop i tokens) ll x = true.

(** Balanced breaking in prefix widths: no token in [[s, j)] is a
    mandatory break, and a discretionary one at [k] leaves the width of
    [[s, k]] below the cutoff [c]. *)
Definition balance_no_break (tokens : list TokenType) (c s j : nat) : Prop :=
  forall k t, s <= k -> k < j -> tokens !! k = Some t ->
    is_mlb t = false /\ (is_dlb t = true -> W tokens (S k) - W tokens s < c).

(** The token [t] at [k] ends the line started at [s]: it is the first
    mandatory break, or the first discretionary one at which the width of
    [[s, k]] reaches the cutoff. *)
Definition balance_break (tokens : list TokenType) (c s k : nat) (t : TokenType) : Prop :=
  s <= k /\ tokens !! k = Some t /\
  (is_mlb t = true \/ (is_dlb t = true /\ c <= W tokens (S k) - W tokens s)) /\
  balance_no_break tokens c s k.

(** The splits after the line start [s] follow the balanced rule. *)
Fixpoint balance_chain (tokens : list TokenType) (c s : nat) (rest : list (nat * bool)) : Prop :=
  match rest with
  | [] => balance_no_break tokens c s (length tokens)
  | (e, b) :: rest' =>
      exists k t, e = S k /\ balance_break tokens c s k t /\
        b = (if is_mlb t then true else is_dob t) /\ balance_chain tokens c e rest'
  end.

(** The page [p] with the content rows [ls] and the footer rows [fs]
    appended. *)
Definition add_rows (p : Page) (ls fs : list (option Line)) : Page :=
  Page.mk (Page.number p) (Page.height p) (Page.lines p ++ ls) (Page.footer p ++ fs).

(** The content rows of all pages, blank rows left out, in page order. *)
Definition content (c : Compositor) : list Line :=
  omap id (concat (map Page.lines (pages c))).

(** The lines of the blocks that [run] composes, in the order of the
    block list: contact blocks are set aside. *)
Fixpoint body_lines (blocks : BlockList) : list Line :=
  match blocks with
  | [] => []
  | b :: bs =>
      match Block.tag b with
      | Some Contact => body_lines bs
      | _ => Block.lines b ++ body_lines bs
      end
  end.

(** The last definition of [label] in a list of footnote definitions. *)
Definition last_def (label : string) (defs : list (string * BlockList)) : option BlockList :=
  last (map snd (filter (fun d => d.1 = label) defs)).

(** The rows of lines set with the given spacing: double spacing puts a
    blank row between consecutive lines. *)
Fixpoint spaced_rows (sp : LineSpacing) (ls : list Line) : list (option Line) :=
  match ls with
  | [] => []
  | [l] => [Some l]
  | l :: ls' => Some l :: (if is_double sp then [None] else []) ++ spaced_rows sp ls'
  end.
Arguments spaced_rows : simpl never.

(** The concatenated text of a token list, as [TokenType::text] gives it. *)
Definition tokens_text (ts : list TokenType) : string :=
  foldr (fun t s => token_text t ++ s)%string EmptyString ts.

(** The concatenated text of a line's segments. *)
Definition line_text (l : Line) : string :=
  foldr (fun sg s => Segment.text sg ++ s)%string EmptyString (Line.segments l).

(** The labels of the [NoteRef] tokens of a token list, in order. *)
Definition note_texts (ts : list TokenType) : list string :=
  omap (fun t => match t with NoteRef tk => Some (text (data tk)) | _ => None end) ts.

(** Reading a PostScript string literal body: a backslash quotes the
    character after it. *)
Fixpoint ps_unescape (s : string) : string :=
  match s with
  | EmptyString => EmptyString
  | String a s' =>
      if Ascii.eqb a backslash then
        match s' with EmptyString => String a EmptyString | String b s'' => String b (ps_unescape s'') end
      else String a (ps_unescape s')
  end.

(** A PostScript string literal body with no unquoted parenthesis and no
    dangling backslash. *)
Fixpoint ps_safe (s : string) : bool :=
  match s with
  | EmptyString => true
  | String a s' =>
      if Ascii.eqb a backslash then
        match s' with EmptyString => false | String _ s'' => ps_safe s'' end
      else negb (Ascii.eqb a "("%char || Ascii.eqb a ")"%char) && ps_safe s'
  end.

(** The numbers of [k] pages started one after the other from a
    [next_page_no] of [n]: [n], then each one [i32]-incremented. *)
Fixpoint page_numbers (n : Z) (k : nat) : list Z :=
  match k with 0 => [] | S k' => n :: page_numbers (i32_wrap (n + 1)) k' end.

(** [next_page_no] after [k] pages have been started from [n]. *)
Fixpoint page_no_after (n : Z) (k : nat) : Z :=
  match k with 0 => n | S k' => page_no_after (i32_wrap (n + 1)) k' end.

(** [p'] is [p] with rows appended to its content and to its footer. *)
Definition page_ext (p p' : Page) : Prop :=
  Page.number p' = Page.number p /\ Page.height p' = Page.height p /\
  prefix (Page.lines p) (Page.lines p') /\ prefix (Page.footer p) (Page.footer p').

(** From [c] to [c'], the finished pages are kept, the current page only
    gets rows appended, and the pages after it are new. *)
Definition keeps_pages (c c' : Compositor) : Prop :=
  forall ps p, pages c = ps ++ [p] ->
  exists p' rest, pages c' = ps ++ p' :: rest /\ page_ext p p'.

(** [keeps_pages], and the new pages have the full height and are
    numbered on from [next_page_no c], which is advanced past them. *)
Definition grows (c c' : Compositor) : Prop :=
  forall ps p, pages c = ps ++ [p] ->
  exists p' rest, pages c' = ps ++ p' :: rest /\ page_ext p p' /\
    map Page.number rest = page_numbers (next_page_no c) (length rest) /\
    Forall (fun q => Page.height q = TOP_LINE - BOTTOM_LINE + 1) rest /\
    next_page_no c' = page_no_after (next_page_no c) (length rest).

(** The one-character-at-a-time PostScript escaping of a string. *)
Fixpoint ps_escape (s : string) : string :=
  match s with
  | EmptyString => EmptyString
  | String a s' =>
      ((if Ascii.eqb a backslash then String backslash (String backslash EmptyString)
        else if Ascii.eqb a "("%char then String backslash "("
        else if Ascii.eqb a ")"%char then String backslash ")"
        else String a EmptyString) ++ ps_escape s')%string
  end.

(** The concatenated texts of segments. *)
Definition segments_text (segs : list Segment) : string :=
  foldr (fun sg s => Segment.text sg ++ s)%string EmptyString segs.

(** The block is tagged [Tag::ToC]. *)
Definition is_toc (b : Block) : bool :=
  match Block.tag b with Some ToC => true | _ => false end.

(** [ls] is the entry [compose_toc] makes of a ToC block [b] met on page
    [page_no]: nothing for a block without lines; otherwise its first line
    with one more segment, a pad of one or two spaces, dots, an optional
    space and the page number, which fills the line to the text width,
    then its other lines. *)
Definition toc_entry_ok (page_no : Z) (b : Block) (ls : list Line) : Prop :=
  match Block.lines b with
  | [] => ls = []
  | line :: rest =>
      exists before_pad k after_pad,
        before_pad ∈ [" "%string; "  "%string] /\ after_pad ∈ [EmptyString; " "%string] /\
        ls = Line.mk (Line.column line)
               (Line.segments line ++
                [segment_of_str (before_pad ++ repeat_str ". " k ++ after_pad ++ string_of_Z page_no)])
               (Line.note_refs line) :: rest /\
        Line.length line +
          String.length (before_pad ++ repeat_str ". " k ++ after_pad ++ string_of_Z page_no) =
        RIGHT_MARGIN - LEFT_MARGIN + 1
  end.

(* ================================================================== *)
(** * Proofs *)

(** ** The examples of the documentation *)

Example next_word_fits_doc :
  next_word_fits [space 1; word "foo"; space 1; word "bar"] 4 0 0 = Some true /\
  next_word_fits [space 1; word "foo"; space 1; word "bar"] 3 0 0 = Some false.
Proof. split; reflexivity. Qed.

Example linebreak_fill_doc :
  option_map (map line_texts) (linebreak_fill [word "foo"; space 1; word "bar"] 6)
  = Some [["foo"%string]; ["bar"%string]].
Proof. reflexivity. Qed.

Example linebreak_balance_doc :
  option_map (@length _) (linebreak_balance [word "foo"; space 1; word "bar"] 6) = Some 2.
Proof. reflexivity. Qed.

Example linebreak_hang_doc :
  option_map (map line_texts) (linebreak_hang [word "garply"; space 1; word "waldo"] 11)
  = Some [["garply"%string]; ["     "%string; "waldo"%string]].
Proof. reflexivity. Qed.

Example mandatory_break_exact :
  option_map (map line_texts) (linebreak_fill [word "foo"; line_break; word "bar"] 80)
  = Some [["foo"%string]; ["bar"%string]].
Proof. reflexivity. Qed.


(** ** Widths of token ranges *)

Lemma string_length_app (a b : string) :
  String.length (a ++ b)%string = String.length a + String.length b.
Proof. induction a as [|c a IH]; simpl; auto. Qed.

Lemma width_nil : width [] = 0.
Proof. reflexivity. Qed.

Lemma width_cons t ts : width (t :: ts) = token_length t + width ts.
Proof. reflexivity. Qed.

Lemma width_app l1 l2 : width (l1 ++ l2) = width l1 + width l2.
Proof. induction l1 as [|t l1 IH]; simpl; [done|]. rewrite !width_cons, IH. lia. Qed.


Lemma seg_width_app s1 s2 : seg_width (s1 ++ s2) = seg_width s1 + seg_width s2.
Proof.
  induction s1 as [|s s1 IH]; simpl; [done|].
  unfold seg_width in *; simpl. rewrite IH. lia.
Qed.

Lemma seg_width_length l : Line.length l = seg_width (Line.segments l).
Proof. reflexivity. Qed.

Lemma segment_body_text ts txt ps :
  String.length (fst (segment_body ts txt ps)) = String.length txt + width ts.
Proof.
  revert txt ps; induction ts as [|t ts IH]; intros txt ps; simpl.
  - rewrite width_nil. lia.
  - rewrite width_cons.
    destruct t; simpl; rewrite ?IH, ?string_length_app; simpl; lia.
Qed.

Lemma segment_text_length ts : String.length (Segment.text (segment_of_tokens ts)) = width ts.
Proof.
  unfold segment_of_tokens.
  match goal with |- context [segment_body ts ?a ?b] =>
    pose proof (segment_body_text ts a b) as H; destruct (segment_body ts a b) end.
  simpl in *. exact H.
Qed.

Lemma slice_width ts a b :
  a <= b -> width (take (b - a) (drop a ts)) + W ts a = W ts b.
Proof.
  intros Hab. unfold W.
  replace b with (a + (b - a)) at 2 by lia.
  rewrite <- take_take_drop, width_app. lia.
Qed.

Lemma W_S ts i t : ts !! i = Some t -> W ts (S i) = W ts i + token_length t.
Proof. intros H. unfold W. rewrite (take_S_r _ _ _ H), width_app, width_cons, width_nil. lia. Qed.

Lemma W_0 ts : W ts 0 = 0.
Proof. reflexivity. Qed.

Lemma W_length ts : W ts (length ts) = width ts.
Proof. unfold W. rewrite take_ge; [done | lia]. Qed.

(** ** Segmentation of a line *)

Lemma chain_le_snoc l i : chain_le l -> Forall (fun k => k <= i) l -> chain_le (l ++ [i]).
Proof.
  induction l as [|a l IH]; simpl; [done|].
  intros Hc HF. inversion HF as [|? ? Ha HF']; subst.
  destruct l as [|b l]; simpl in *; [split; [lia|done]|].
  destruct Hc as [Hab Hc]. split; [done|]. apply IH; done.
Qed.

Lemma last_of_snoc h t x : last_of h (t ++ [x]) = x.
Proof. revert h; induction t as [|y t IH]; intros h; simpl; auto. Qed.

Lemma line_scan_sorted ts i dpy nrs sc :
  chain_le sc -> Forall (fun k => k <= i) sc ->
  chain_le (snd (line_scan ts i dpy nrs sc)) /\
  Forall (fun k => k <= i + length ts) (snd (line_scan ts i dpy nrs sc)) /\
  exists rest, snd (line_scan ts i dpy nrs sc) = sc ++ rest.
Proof.
  revert i dpy nrs sc; induction ts as [|t ts IH]; intros i dpy nrs sc Hc HF; simpl.
  - split; [done|]. split; [eapply Forall_impl; [exact HF|]; simpl; lia|].
    exists []. by rewrite app_nil_r.
  - assert (HF1 : Forall (fun k => k <= S i) sc)
      by (eapply Forall_impl; [exact HF|]; simpl; lia).
    assert (HF2 : Forall (fun k => k <= S i) (sc ++ [i]))
      by (apply Forall_app; split; [done|]; constructor; [lia|constructor]).
    assert (Hc2 : chain_le (sc ++ [i])) by (apply chain_le_snoc; done).
    destruct t;
      try (destruct (negb _));
      match goal with
      | |- context [line_scan ts (S i) ?d ?n (sc ++ [i])] =>
          destruct (IH (S i) d n (sc ++ [i]) Hc2 HF2) as (A & B & rest & C);
          rewrite C in *; split; [done|]; split;
          [eapply Forall_impl; [exact B|]; simpl; lia|];
          exists ([i] ++ rest); by rewrite app_assoc
      | |- context [line_scan ts (S i) ?d ?n sc] =>
          destruct (IH (S i) d n sc Hc HF1) as (A & B & rest & C);
          rewrite C in *; split; [done|]; split;
          [eapply Forall_impl; [exact B|]; simpl; lia|];
          by exists rest
      end.
Qed.

Lemma usize_sub_le a b : b <= a -> usize_sub a b = Some (a - b).
Proof. intros H. unfold usize_sub. apply Nat.leb_le in H. by rewrite H. Qed.

Lemma slice_ok {A} (xs : list A) i j :
  i <= j -> j <= length xs -> slice xs i j = Some (take (j - i) (drop i xs)).
Proof.
  intros H1 H2. unfold slice.
  apply Nat.leb_le in H1, H2. by rewrite H1, H2.
Qed.

Lemma line_segments_some ts h t acc :
  chain_le (h :: t) -> Forall (fun k => k <= length ts) (h :: t) ->
  exists segs, line_segments ts (windows2 (h :: t)) acc = Some (acc ++ segs) /\
    seg_width segs + W ts h = W ts (last_of h t).
Proof.
  revert h acc; induction t as [|b t IH]; intros h acc Hc HF.
  - exists []. rewrite app_nil_r. split; [done|]. simpl. unfold seg_width. simpl. lia.
  - simpl in Hc. destruct Hc as [Hhb Hc].
    inversion HF as [|? ? Hh HF']; subst.
    inversion HF' as [|? ? Hb HF'']; subst.
    change (windows2 (h :: b :: t)) with ((h, b) :: windows2 (b :: t)).
    remember (windows2 (b :: t)) as w eqn:Hw.
    cbn [line_segments]. rewrite (usize_sub_le _ _ Hhb). simpl.
    destruct (Nat.ltb 0 (b - h)) eqn:E.
    + rewrite (slice_ok _ _ _ Hhb Hb). simpl.
      destruct (IH b (acc ++ [segment_of_tokens (take (b - h) (drop h ts))]) Hc HF')
        as (segs & E1 & E2). rewrite <- Hw in E1.
      exists (segment_of_tokens (take (b - h) (drop h ts)) :: segs).
      rewrite E1, <- app_assoc. split; [done|].
      rewrite <- E2. unfold seg_width at 1. simpl. fold (seg_width segs).
      rewrite segment_text_length. pose proof (slice_width ts h b Hhb). lia.
    + apply Nat.ltb_ge in E. assert (b = h) by lia. subst b.
      destruct (IH h acc Hc HF') as (segs & E1 & E2). rewrite <- Hw in E1.
      exists segs. split; [done|]. exact E2.
Qed.

(** A token range always becomes a line, of the range's width. *)
Lemma line_of_tokens_length ts :
  exists l, line_of_tokens ts = Some l /\ Line.length l = width ts.
Proof.
  unfold line_of_tokens.
  set (d := match ts with t :: _ => display_flags t | [] => 0%Z end).
  destruct (line_scan_sorted ts 0 d [] [0]) as (Hc & HF & rest & Hr);
    [done | constructor; [lia | constructor] |].
  destruct (line_scan ts 0 d [] [0]) as [nrs sc] eqn:E. simpl in *. subst sc.
  assert (Hc' : chain_le (0 :: rest ++ [length ts]))
    by (apply (chain_le_snoc ([0] ++ rest)); [done|]; eapply Forall_impl; [exact HF|]; simpl; lia).
  assert (HF' : Forall (fun k => k <= length ts) (0 :: rest ++ [length ts])).
  { apply (Forall_app _ ([0] ++ rest) [length ts]). split; [|constructor; [lia|constructor]].
    eapply Forall_impl; [exact HF|]; simpl; lia. }
  destruct (line_segments_some ts 0 (rest ++ [length ts]) [] Hc' HF') as (segs & E1 & E2).
  change ((0 :: rest) ++ [length ts]) with (0 :: rest ++ [length ts]). rewrite E1.
  simpl. eexists; split; [reflexivity|].
  rewrite seg_width_length. simpl. rewrite last_of_snoc, W_0, W_length in E2. lia.
Qed.

(** ** Splits and the lines cut at them *)

Lemma windows2_snoc {A} (l : list A) a b :
  windows2 ((l ++ [a]) ++ [b]) = windows2 (l ++ [a]) ++ [(a, b)].
Proof.
  induction l as [|p l IH]; [done|].
  simpl. destruct (l ++ [a]) as [|q r] eqn:E; [destruct l; discriminate|].
  simpl in *. by rewrite IH.
Qed.

Lemma drop_cons_lookup {A} (l : list A) i t r :
  drop i l = t :: r -> l !! i = Some t /\ drop (S i) l = r.
Proof.
  intros H. split.
  - rewrite <- (Nat.add_0_r i), <- lookup_drop, H. done.
  - replace (S i) with (i + 1) by lia. rewrite <- drop_drop, H. done.
Qed.

Lemma split_lines_some tokens ws acc :
  Forall (window_valid (length tokens)) ws ->
  exists lines, split_lines tokens ws acc = Some (acc ++ lines) /\
    Forall (from_window tokens ws) lines.
Proof.
  revert acc; induction ws as [|[s0 s1] ws IH]; intros acc HV.
  - exists []. rewrite app_nil_r. done.
  - inversion HV as [|? ? [Hd [Hij Hj]] HV']; subst. simpl in Hd, Hij, Hj.
    cbn [split_lines].
    assert (Ej : (if snd s1 then usize_sub (fst s1) 1 else Some (fst s1)) = Some (split_end s1)).
    { unfold split_end. destruct (snd s1); [apply usize_sub_le; auto|done]. }
    rewrite Ej. simpl. rewrite (usize_sub_le _ _ Hij). simpl.
    assert (Hmono : forall lines, Forall (from_window tokens ws) lines ->
                      Forall (from_window tokens ((s0, s1) :: ws)) lines).
    { intros lines Hl. eapply Forall_impl; [exact Hl|].
      intros line (w & sl & Hw & Hlt & Hs & Hline).
      exists w, sl. repeat split; try done. by apply list_elem_of_further. }
    destruct (Nat.ltb 0 (split_end s1 - fst s0)) eqn:E.
    + apply Nat.ltb_lt in E.
      rewrite (slice_ok _ _ _ Hij Hj). simpl.
      destruct (line_of_tokens_length (take (split_end s1 - fst s0) (drop (fst s0) tokens)))
        as (line & Hline & _).
      rewrite Hline. simpl.
      destruct (IH (acc ++ [line]) HV') as (lines & E1 & E2).
      exists (line :: lines). rewrite E1, <- app_assoc. split; [done|].
      constructor; [|by apply Hmono].
      exists (s0, s1), (take (split_end s1 - fst s0) (drop (fst s0) tokens)).
      simpl. split; [by apply list_elem_of_here|]. split; [lia|].
      split; [by apply slice_ok | done].
    + destruct (IH acc HV') as (lines & E1 & E2).
      exists lines. split; [done|]. by apply Hmono.
Qed.

Lemma line_of_tokens_width sl line :
  line_of_tokens sl = Some line -> Line.length line = width sl.
Proof.
  intros H. destruct (line_of_tokens_length sl) as (l & H1 & H2).
  rewrite H in H1. injection H1 as ->. done.
Qed.

(** ** The fill invariant *)

Lemma fill_close_window (tokens : list TokenType) (ll s : nat) (d0 : bool) (i x : nat)
    (t : TokenType) (dsc : bool) :
  tokens !! i = Some t -> is_break_candidate t = true -> s <= i ->
  line_start_ok tokens s -> x + W tokens s = W tokens i ->
  (forall k (t' : TokenType), s <= k -> k < i -> tokens !! k = Some t' ->
     is_break_candidate t' = false) \/
    (if dsc then x <= ll else x + token_length t <= ll) ->
  window_valid (length tokens) ((s, d0), (i + 1, dsc)) /\
  window_fits tokens ll ((s, d0), (i + 1, dsc)).
Proof.
  intros Ht Hc Hsi Hst Hx Hinv.
  assert (Hi : i < length tokens) by (apply lookup_lt_Some in Ht; done).
  assert (Hend : split_end (i + 1, dsc) = if dsc then i else i + 1)
    by (unfold split_end; destruct dsc; simpl; lia).
  split.
  - unfold window_valid. simpl. rewrite Hend. destruct dsc; repeat split; lia.
  - unfold window_fits. simpl. rewrite Hend.
    destruct Hinv as [Hnone | Hfit].
    + right. intros Hlt. repeat split; [lia | destruct dsc; lia | done | |].
      * intros k t' Hk1 Hk2 Hk. apply (Hnone k t'); [lia | destruct dsc; lia | done].
      * right. destruct dsc; [left | right]; exists t; split; try done.
        by replace (i + 1 - 1) with i by lia.
    + left. destruct dsc.
      * pose proof (slice_width tokens s i Hsi). lia.
      * pose proof (slice_width tokens s (i + 1) ltac:(lia)).
        replace (i + 1) with (S i) in * by lia. rewrite (W_S _ _ _ Ht) in *. lia.
Qed.

Lemma fill_loop_spec tokens ll rest : forall i x pre s d,
  rest = drop i tokens -> i <= length tokens -> s <= i ->
  line_start_ok tokens s -> x + W tokens s = W tokens i ->
  Forall (window_valid (length tokens)) (windows2 (pre ++ [(s, d)])) ->
  Forall (window_fits tokens ll) (windows2 (pre ++ [(s, d)])) ->
  fill_inv tokens ll s i x ->
  exists splits, fill_loop tokens ll rest i x (pre ++ [(s, d)]) = Some splits /\
    Forall (window_valid (length tokens)) (windows2 (splits ++ [(length tokens, false)])) /\
    Forall (window_fits tokens ll) (windows2 (splits ++ [(length tokens, false)])).
Proof.
  induction rest as [|t rest IH]; intros i x pre s d Hr Hi Hsi Hst Hx HV HF Hinv.
  - (* end of input: the last range runs to the end *)
    assert (i = length tokens).
    { destruct (decide (i < length tokens)) as [Hlt|]; [|lia].
      pose proof (length_drop tokens i) as L. rewrite <- Hr in L. simpl in L. lia. }
    subst i. exists (pre ++ [(s, d)]). split; [done|].
    rewrite windows2_snoc. split; apply Forall_app; (split; [done|]); apply Forall_singleton.
    + unfold window_valid, split_end. simpl. lia.
    + unfold window_fits, split_end. simpl.
      pose proof (slice_width tokens s (length tokens) Hsi).
      destruct Hinv as [Hnone | Hfit].
      * right. intros Hlt. split; [lia|]. split; [done|]. split; [|by left].
        intros k t' Hk1 Hk2 Hk. apply (Hnone k t'); [lia|lia|done].
      * left. rewrite <- Hr in Hfit. simpl in Hfit. apply Nat.leb_le in Hfit. lia.
  - symmetry in Hr. apply drop_cons_lookup in Hr as [Ht Hrest].
    assert (Hlt : i < length tokens) by (apply lookup_lt_Some in Ht; done).
    pose proof (W_S _ _ _ Ht) as HWS.
    cbn [fill_loop].
    destruct (is_mlb t) eqn:Em.
    + (* mandatory break: always split, discard the token *)
      destruct (fill_close_window tokens ll s d i x t true Ht
                  ltac:(unfold is_break_candidate; rewrite Em; done) Hsi Hst Hx)
        as [HV1 HF1].
      { destruct Hinv as [Hnone | Hfit]; [by left | right].
        rewrite (drop_S _ _ _ Ht) in Hfit. simpl in Hfit. rewrite Em in Hfit.
        by apply Nat.leb_le in Hfit. }
      apply (IH (S i) 0 (pre ++ [(s, d)]) (i + 1) true); [done | lia | lia | | | | |].
      * right. exists t. split; [by replace (i + 1 - 1) with i by lia|].
        unfold is_break_candidate. by rewrite Em.
      * replace (i + 1) with (S i) by lia. lia.
      * rewrite windows2_snoc. apply Forall_app. split; [done | by apply Forall_singleton].
      * rewrite windows2_snoc. apply Forall_app. split; [done | by apply Forall_singleton].
      * left. intros k t' Hk1 Hk2. lia.
    + destruct (is_dlb t) eqn:Ed.
      * (* discretionary break: look ahead *)
        unfold next_word_fits. rewrite Ht. simpl.
        destruct (next_word_fits_loop (drop (i + 1) tokens) ll (x + token_length t)) eqn:Efit;
          simpl.
        -- apply IH; [done | lia | lia | done | lia | done | done |].
           right. replace (S i) with (i + 1) by lia. done.
        -- destruct (fill_close_window tokens ll s d i x t (is_dob t) Ht
                       ltac:(unfold is_break_candidate; rewrite Ed, orb_true_r; done)
                       Hsi Hst Hx) as [HV1 HF1].
           { destruct Hinv as [Hnone | Hfit]; [by left | right].
             rewrite (drop_S _ _ _ Ht) in Hfit. simpl in Hfit. rewrite Em, Ed in Hfit.
             destruct (is_dob t); by apply Nat.leb_le in Hfit. }
           apply (IH (S i) 0 (pre ++ [(s, d)]) (i + 1) (is_dob t)); [done | lia | lia | | | | |].
           ++ right. exists t. split; [by replace (i + 1 - 1) with i by lia|].
              unfold is_break_candidate. by rewrite Ed, orb_true_r.
           ++ replace (i + 1) with (S i) by lia. lia.
           ++ rewrite windows2_snoc. apply Forall_app. split; [done | by apply Forall_singleton].
           ++ rewrite windows2_snoc. apply Forall_app. split; [done | by apply Forall_singleton].
           ++ left. intros k t' Hk1 Hk2. lia.
      * (* ordinary token *)
        apply IH; [done | lia | lia | done | lia | done | done |].
        destruct Hinv as [Hnone | Hfit].
        -- left. intros k t' Hk1 Hk2 Hk.
           destruct (decide (k = i)) as [->|]; [|apply (Hnone k t'); [lia|lia|done]].
           rewrite Ht in Hk. injection Hk as <-. unfold is_break_candidate. by rewrite Em, Ed.
        -- right. rewrite (drop_S _ _ _ Ht) in Hfit. simpl in Hfit. rewrite Em, Ed in Hfit.
           exact Hfit.
Qed.

Lemma from_window_fits tokens ll ws line :
  Forall (window_fits tokens ll) ws -> from_window tokens ws line ->
  Line.length line <= ll \/
  exists i j sl, unbreakable_run tokens i j /\ slice tokens i j = Some sl /\
    line_of_tokens sl = Some line /\ ll < width sl.
Proof.
  intros HF (w & sl & Hw & Hlt & Hs & Hl).
  rewrite Forall_forall in HF. specialize (HF w Hw).
  rewrite (line_of_tokens_width _ _ Hl).
  unfold slice in Hs.
  destruct (Nat.leb _ _ && Nat.leb _ _); [injection Hs as <-|discriminate].
  destruct HF as [Hfit | Hrun]; [by left|].
  destruct (decide (width (take (split_end (snd w) - fst (fst w)) (drop (fst (fst w)) tokens)) <= ll));
    [by left|right].
  exists (fst (fst w)), (split_end (snd w)), (take (split_end (snd w) - fst (fst w)) (drop (fst (fst w)) tokens)).
  destruct (Hrun Hlt) as [Hb Hrest].
  split; [exact (conj Hb Hrest)|]. split; [apply slice_ok; lia|]. split; [done|lia].
Qed.

(** ** C1 *)

(** C1: for every token sequence and every budget, every line emitted by
    [linebreak_fill] is at most the budget long, except a line that is a
    single run of tokens between two legal break points (MandatoryBreak
    or DiscretionaryBreak candidates) and is itself longer than the
    budget: such a line overflows and is not split further. *)
Theorem linebreak_fill_within_budget (tokens : list TokenType) (line_length : nat)
    (lines : list Line) :
  linebreak_fill tokens line_length = Some lines ->
  forall line, line ∈ lines ->
  Line.length line <= line_length \/
  exists i j sl, unbreakable_run tokens i j /\ slice tokens i j = Some sl /\
    line_of_tokens sl = Some line /\ line_length < width sl.
Proof.
  intros H line Hline. unfold linebreak_fill in H.
  destruct (fill_loop_spec tokens line_length tokens 0 0 [] 0 false)
    as (splits & E & HV & HF);
    [done | lia | lia | by left | done | done | done | left; intros; lia |].
  change ([] ++ [(0, false)]) with [(0, false)] in E. rewrite E in H. simpl in H.
  destruct (split_lines_some tokens (windows2 (splits ++ [(length tokens, false)])) [] HV)
    as (lines' & E' & Hfrom).
  rewrite E' in H. injection H as <-. simpl in Hline.
  rewrite Forall_forall in Hfrom.
  exact (from_window_fits _ _ _ _ HF (Hfrom line Hline)).
Qed.

(** The normal case and the overflow case on concrete inputs. *)
Example linebreak_fill_normal_case :
  option_map (map Line.length)
    (linebreak_fill [word "foo"; space 1; word "bar"; space 1; word "baz"] 7)
  = Some [7; 3].
Proof. reflexivity. Qed.

Example linebreak_fill_overflow_case :
  option_map (map Line.length)
    (linebreak_fill [word "abcdefgh"; space 1; word "ab"] 5) = Some [8; 2].
Proof. reflexivity. Qed.

Lemma linebreak_fill_within_budget_witness :
  exists lines,
    linebreak_fill [word "abcdefgh"; space 1; word "ab"] 5 = Some lines /\
    forall line, line ∈ lines ->
      Line.length line <= 5 \/
      exists i j sl, unbreakable_run [word "abcdefgh"; space 1; word "ab"] i j /\
        slice [word "abcdefgh"; space 1; word "ab"] i j = Some sl /\
        line_of_tokens sl = Some line /\ 5 < width sl.
Proof.
  eexists. split; [reflexivity|].
  apply (linebreak_fill_within_budget [word "abcdefgh"; space 1; word "ab"] 5).
  reflexivity.
Defined.

(** ** Totality of the line breakers *)

Lemma push_split_valid n pre s d i b :
  s <= i -> i < n -> Forall (window_valid n) (windows2 (pre ++ [(s, d)])) ->
  Forall (window_valid n) (windows2 ((pre ++ [(s, d)]) ++ [(i + 1, b)])).
Proof.
  intros Hsi Hi HV. rewrite windows2_snoc. apply Forall_app. split; [done|].
  apply Forall_singleton. unfold window_valid, split_end. simpl. destruct b; lia.
Qed.

Lemma close_last_valid n pre s d :
  s <= n -> Forall (window_valid n) (windows2 (pre ++ [(s, d)])) ->
  Forall (window_valid n) (windows2 ((pre ++ [(s, d)]) ++ [(n, false)])).
Proof.
  intros Hs HV. rewrite windows2_snoc. apply Forall_app. split; [done|].
  apply Forall_singleton. unfold window_valid, split_end. simpl. lia.
Qed.

Lemma drop_nil_length {A} (l : list A) i : [] = drop i l -> i <= length l -> i = length l.
Proof.
  intros Hr Hi. pose proof (length_drop l i) as L. rewrite <- Hr in L. simpl in L. lia.
Qed.

Lemma balance_loop_valid tokens cutoff rest : forall i x pre s d,
  rest = drop i tokens -> i <= length tokens -> s <= i ->
  Forall (window_valid (length tokens)) (windows2 (pre ++ [(s, d)])) ->
  Forall (window_valid (length tokens))
    (windows2 (balance_loop cutoff rest i x (pre ++ [(s, d)]) ++ [(length tokens, false)])).
Proof.
  induction rest as [|t rest IH]; intros i x pre s d Hr Hi Hsi HV.
  - pose proof (drop_nil_length _ _ Hr Hi). simpl. apply close_last_valid; [lia|done].
  - symmetry in Hr. apply drop_cons_lookup in Hr as [Ht Hrest].
    assert (Hlt : i < length tokens) by (apply lookup_lt_Some in Ht; done).
    cbn [balance_loop].
    destruct (is_mlb t); [|destruct (is_dlb t); [destruct (Nat.leb _ _)|]];
      try (apply IH; [done | lia | lia | done]);
      (apply IH; [done | lia | lia | by apply push_split_valid]).
Qed.

Lemma hang_loop_some tokens rest : forall i x ll pre s d,
  rest = drop i tokens -> i <= length tokens -> s <= i -> 1 <= ll ->
  Forall (window_valid (length tokens)) (windows2 (pre ++ [(s, d)])) ->
  exists splits, hang_loop tokens rest i x ll (pre ++ [(s, d)]) = Some splits /\
    Forall (window_valid (length tokens)) (windows2 (splits ++ [(length tokens, false)])).
Proof.
  induction rest as [|t rest IH]; intros i x ll pre s d Hr Hi Hsi Hll HV.
  - pose proof (drop_nil_length _ _ Hr Hi). eexists. split; [reflexivity|].
    apply close_last_valid; [lia|done].
  - symmetry in Hr. apply drop_cons_lookup in Hr as [Ht Hrest].
    assert (Hlt : i < length tokens) by (apply lookup_lt_Some in Ht; done).
    cbn [hang_loop].
    destruct (is_mlb t).
    { apply IH; [done | lia | lia | done | by apply push_split_valid]. }
    destruct (is_dlb t); [|apply IH; [done | lia | lia | done | done]].
    unfold next_word_fits. rewrite Ht. cbn -[Nat.min INDENT usize_sub].
    destruct (next_word_fits_loop _ _ _); cbn -[Nat.min INDENT usize_sub]; [apply IH; [done | lia | lia | done | done]|].
    destruct (Nat.eqb _ 2).
    + rewrite (usize_sub_le ll 1 Hll). cbn -[Nat.min INDENT usize_sub].
      rewrite (usize_sub_le ll (Nat.min INDENT (ll - 1)) ltac:(lia)). cbn -[Nat.min INDENT].
      apply IH; [done | lia | lia | lia | by apply push_split_valid].
    + simpl. apply IH; [done | lia | lia | done | by apply push_split_valid].
Qed.

Lemma hang_lines_some tokens indent ws lines :
  Forall (window_valid (length tokens)) ws ->
  exists r, hang_lines tokens indent ws lines = Some r.
Proof.
  revert lines; induction ws as [|[s0 s1] ws IH]; intros lines HV; [by eexists|].
  inversion HV as [|? ? [Hd [Hij Hj]] HV']; subst. simpl in Hd, Hij, Hj.
  cbn [hang_lines].
  assert (Ej : (if snd s1 then usize_sub (fst s1) 1 else Some (fst s1)) = Some (split_end s1)).
  { unfold split_end. destruct (snd s1); [apply usize_sub_le; auto|done]. }
  rewrite Ej. simpl. rewrite (usize_sub_le _ _ Hij). simpl.
  destruct (Nat.ltb _ _); [|by apply IH].
  rewrite (slice_ok _ _ _ Hij Hj). simpl.
  destruct (line_of_tokens_length (take (split_end s1 - fst s0) (drop (fst s0) tokens)))
    as (line & Hline & _).
  rewrite Hline. simpl. by apply IH.
Qed.

Lemma linebreak_fill_some tokens ll : exists lines, linebreak_fill tokens ll = Some lines.
Proof.
  unfold linebreak_fill.
  destruct (fill_loop_spec tokens ll tokens 0 0 [] 0 false)
    as (splits & E & HV & _);
    [done | lia | lia | by left | done | done | done | left; intros; lia |].
  change ([] ++ [(0, false)]) with [(0, false)] in E. rewrite E. simpl.
  destruct (split_lines_some tokens (windows2 (splits ++ [(length tokens, false)])) [] HV)
    as (lines' & E' & _).
  rewrite E'. by eexists.
Qed.

Lemma linebreak_balance_some tokens ll :
  1 <= ll -> exists lines, linebreak_balance tokens ll = Some lines.
Proof.
  intros Hll. unfold linebreak_balance, usize_div.
  set (L := foldl (fun sum token => sum + token_length token) 0 tokens).
  destruct (Nat.eqb_spec ll 0) as [|_]; [lia|]. simpl.
  destruct (Nat.eqb_spec (L / ll + 1) 0) as [|_]; [lia|]. simpl.
  pose proof (balance_loop_valid tokens (L / (L / ll + 1)) tokens 0 0 [] 0 false ltac:(done) ltac:(lia) ltac:(lia) ltac:(done)) as HV.
  destruct (split_lines_some tokens _ [] HV) as (lines & E & _).
  change ([] ++ [(0, false)]) with [(0, false)] in E. rewrite E. by eexists.
Qed.

Lemma linebreak_hang_some tokens ll :
  1 <= ll -> exists lines, linebreak_hang tokens ll = Some lines.
Proof.
  intros Hll. unfold linebreak_hang.
  destruct (hang_loop_some tokens tokens 0 0 ll [] 0 false) as (splits & E & HV);
    [done | lia | lia | done | done |].
  change ([] ++ [(0, false)]) with [(0, false)] in E. rewrite E. simpl.
  by apply hang_lines_some.
Qed.

Lemma block_count_lines_some (block : Block) :
  (Block.line_spacing block = Single \/ Block.lines block <> []) ->
  exists n, Block.count_lines block = Some n.
Proof.
  intros H. unfold Block.count_lines.
  destruct (Block.line_spacing block); [by eexists|].
  destruct H as [H|H]; [discriminate|].
  destruct (Block.lines block); [done|]. simpl. rewrite usize_sub_le; [by eexists | lia].
Qed.

(** ** C9 *)

(** The partial cases: on a budget of 0, [linebreak_balance] divides
    by zero and [linebreak_hang] underflows [line_length - 1] at its
    first discretionary break; [Block::count_lines] underflows on a
    double-spaced block without lines. *)
Lemma core_transformations_partial_cases :
  linebreak_balance [word "foo"] 0 = None /\
  linebreak_hang [word "foo"; space 1; word "bar"] 0 = None /\
  Block.count_lines (Block.mk [] [] Double 0 0 None) = None.
Proof. split; [|split]; reflexivity. Qed.

(** Totality: [linebreak_fill] returns normally for every token list
    and budget; [linebreak_balance] and [linebreak_hang] return normally
    for every token list and every budget of at least 1; and
    [Block::count_lines] returns normally for every single-spaced block
    and every double-spaced block with at least one line. *)
Theorem core_transformations_total (tokens : list TokenType) (line_length : nat) (block : Block) :
  1 <= line_length ->
  (forall budget, exists lines, linebreak_fill tokens budget = Some lines) /\
  (exists lines, linebreak_balance tokens line_length = Some lines) /\
  (exists lines, linebreak_hang tokens line_length = Some lines) /\
  ((Block.line_spacing block = Single \/ Block.lines block <> []) ->
   exists n, Block.count_lines block = Some n).
Proof.
  intros Hll. split; [|split; [|split]].
  - intros budget. apply linebreak_fill_some.
  - by apply linebreak_balance_some.
  - by apply linebreak_hang_some.
  - apply block_count_lines_some.
Qed.

(** ** The balanced rule *)

Lemma foldl_length_width ts a :
  foldl (fun sum token => sum + token_length token) a ts = a + width ts.
Proof.
  revert a; induction ts as [|t ts IH]; intros a; simpl.
  - rewrite width_nil. lia.
  - rewrite IH, width_cons. lia.
Qed.

Lemma balance_loop_chain tokens c rest : forall i x s acc,
  rest = drop i tokens -> i <= length tokens -> s <= i -> x + W tokens s = W tokens i ->
  balance_no_break tokens c s i ->
  exists r, balance_loop c rest i x acc = acc ++ r /\ balance_chain tokens c s r.
Proof.
  induction rest as [|t rest IH]; intros i x s acc Hr Hi Hsi Hx Hnb.
  - pose proof (drop_nil_length _ _ Hr Hi) as ->. exists []. rewrite app_nil_r. done.
  - symmetry in Hr. apply drop_cons_lookup in Hr as [Ht Hrest].
    assert (Hlt : i < length tokens) by (apply lookup_lt_Some in Ht; done).
    pose proof (W_S _ _ _ Ht) as HWS.
    assert (Hnb0 : balance_no_break tokens c (i + 1) (S i))
      by (intros k t' Hk1 Hk2; lia).
    cbn [balance_loop].
    destruct (is_mlb t) eqn:Em; [|destruct (is_dlb t) eqn:Ed; [destruct (Nat.leb_spec c (x + token_length t)) as [Hc|Hc]|]].
    + destruct (IH (S i) 0 (i + 1) (acc ++ [(i + 1, true)])) as (r & E & Hch);
        [done | lia | lia | replace (i + 1) with (S i) by lia; lia | done |].
      exists ((i + 1, true) :: r). rewrite E, <- app_assoc. split; [done|].
      exists i, t. split; [lia|]. split; [split; [lia|]; split; [done|]; split; [by left | done]|].
      rewrite Em. done.
    + destruct (IH (S i) 0 (i + 1) (acc ++ [(i + 1, is_dob t)])) as (r & E & Hch);
        [done | lia | lia | replace (i + 1) with (S i) by lia; lia | done |].
      exists ((i + 1, is_dob t) :: r). rewrite E, <- app_assoc. split; [done|].
      exists i, t. split; [lia|]. split; [split; [lia|]; split; [done|]; split; [right; split; [done | lia] | done]|].
      rewrite Em. done.
    + apply IH; [done | lia | lia | lia |].
      intros k t' Hk1 Hk2 Hk. destruct (decide (k = i)) as [->|]; [|apply (Hnb k t'); [lia|lia|done]].
      rewrite Ht in Hk. injection Hk as <-. split; [done|]. intros _. lia.
    + apply IH; [done | lia | lia | lia |].
      intros k t' Hk1 Hk2 Hk. destruct (decide (k = i)) as [->|]; [|apply (Hnb k t'); [lia|lia|done]].
      rewrite Ht in Hk. injection Hk as <-. split; [done|]. intros H; congruence.
Qed.

(** ** C5 *)

(** C5 (the line count): on "foo bar", of total length 7, with a budget
    of 7, [linebreak_balance] derives [h = 2] and [c = 3], breaks at the
    space and emits two lines, while [⌈7/7⌉ = 1]. *)
Lemma linebreak_balance_line_count_counterexample :
  let tokens := [word "foo"; space 1; word "bar"] in
  width tokens = 7 /\ width tokens / 7 + 1 = 2 /\ width tokens / (width tokens / 7 + 1) = 3 /\
  option_map (map line_texts) (linebreak_balance tokens 7) = Some [["foo"%string]; ["bar"%string]] /\
  (width tokens + 7 - 1) / 7 = 1.
Proof. repeat split; reflexivity. Qed.

(** C5 (amended): for a token sequence of total length [L] and a budget
    [w > 0], [linebreak_balance] derives [h = L/w + 1] and the cutoff
    [c = L/h]; it splits at every mandatory break, and at a
    discretionary break exactly when the width accumulated since the
    last split plus that token's length reaches or exceeds [c]; its
    lines are the ranges between those splits.  The number of lines is
    not [⌈L/w⌉] in general. *)
Theorem linebreak_balance_rule (tokens : list TokenType) (w : nat) :
  1 <= w ->
  let L := width tokens in
  let h := L / w + 1 in
  let c := L / h in
  exists rest, balance_chain tokens c 0 rest /\
    linebreak_balance tokens w =
      split_lines tokens (windows2 (((0, false) :: rest) ++ [(length tokens, false)])) [].
Proof.
  intros Hw L h c. unfold linebreak_balance, usize_div.
  rewrite foldl_length_width. simpl Nat.add.
  destruct (Nat.eqb_spec w 0) as [|_]; [lia|]. simpl.
  destruct (Nat.eqb_spec (width tokens / w + 1) 0) as [|_]; [lia|]. simpl.
  destruct (balance_loop_chain tokens c tokens 0 0 0 [(0, false)]) as (r & E & Hch);
    [done | lia | lia | done | intros k t Hk1 Hk2; lia |].
  exists r. split; [done|]. subst c h L. rewrite E. done.
Qed.

Lemma linebreak_balance_rule_witness :
  1 <= 7 /\
  exists rest, balance_chain [word "foo"; space 1; word "bar"] 3 0 rest /\
    linebreak_balance [word "foo"; space 1; word "bar"] 7 =
      split_lines [word "foo"; space 1; word "bar"]
        (windows2 (((0, false) :: rest) ++ [(3, false)])) [].
Proof.
  split; [lia|].
  exact (linebreak_balance_rule [word "foo"; space 1; word "bar"] 7 ltac:(lia)).
Defined.

(** ** C6 *)

(** C6: the budget of [linebreak_hang] is reduced only at the first
    split of its discretionary branch ([splits.len() == 2]).  When the
    first break is mandatory, every later line is still broken against
    the full budget of 9, although it gets the indent prefix: the second
    line is "bbbb cccc", 14 columns wide with its indent, where a budget
    of 9 - 5 = 4 splits it into "bbbb" and "cccc".  A discretionary
    first break does reduce the budget. *)
Theorem linebreak_hang_mandatory_first_break :
  option_map (map line_texts)
    (linebreak_hang [word "aaaa"; line_break; word "bbbb"; space 1; word "cccc"] 9)
  = Some [["aaaa"%string]; ["     "%string; "bbbb cccc"%string]] /\
  option_map (map Line.length)
    (linebreak_hang [word "aaaa"; line_break; word "bbbb"; space 1; word "cccc"] 9)
  = Some [4; 14] /\
  option_map (map line_texts) (linebreak_fill [word "bbbb"; space 1; word "cccc"] (9 - INDENT))
  = Some [["bbbb"%string]; ["cccc"%string]] /\
  option_map (map line_texts)
    (linebreak_hang [word "aaaa"; space 1; word "bbbb"; space 1; word "cccc"] 9)
  = Some [["aaaa bbbb"%string]; ["     "%string; "cccc"%string]].
Proof. repeat split; reflexivity. Qed.

(** ** The current page *)

Lemma add_rows_nil p : add_rows p [] [] = p.
Proof. destruct p. unfold add_rows. simpl. by rewrite !app_nil_r. Qed.

Lemma add_rows_add_rows p a b c d : add_rows (add_rows p a b) c d = add_rows p (a ++ c) (b ++ d).
Proof. unfold add_rows. simpl. by rewrite !app_assoc. Qed.

Lemma update_cur_page_snoc f c ps p :
  pages c = ps ++ [p] -> update_cur_page f c = Some (set_pages c (ps ++ [f p])).
Proof. intros H. unfold update_cur_page. rewrite H, last_snoc, removelast_last. done. Qed.

Lemma update_cur_page_inv f c c' :
  update_cur_page f c = Some c' ->
  exists ps p, pages c = ps ++ [p] /\ c' = set_pages c (ps ++ [f p]).
Proof.
  unfold update_cur_page. destruct (last (pages c)) as [p|] eqn:E; [|discriminate].
  apply last_Some in E as [ps E]. rewrite E, removelast_last. intros [= <-].
  by exists ps, p.
Qed.

Lemma cur_page_snoc c ps p : pages c = ps ++ [p] -> cur_page c = Some p.
Proof. intros H. unfold cur_page. by rewrite H, last_snoc. Qed.

Lemma push_line_snoc l c ps p :
  pages c = ps ++ [p] -> push_line l c = Some (set_pages c (ps ++ [add_rows p [l] []])).
Proof.
  intros H. unfold push_line. rewrite (update_cur_page_snoc _ _ _ _ H).
  unfold add_rows. by rewrite app_nil_r.
Qed.

Lemma push_footer_snoc l c ps p :
  pages c = ps ++ [p] -> push_footer l c = Some (set_pages c (ps ++ [add_rows p [] [l]])).
Proof.
  intros H. unfold push_footer. rewrite (update_cur_page_snoc _ _ _ _ H).
  unfold add_rows. by rewrite app_nil_r.
Qed.

Lemma push_blank_rows_snoc n c ps p :
  pages c = ps ++ [p] ->
  push_blank_rows n c = Some (set_pages c (ps ++ [add_rows p (repeat None n) []])).
Proof.
  revert c p; induction n as [|n IH]; intros c p H.
  - simpl. rewrite add_rows_nil, <- H. by destruct c.
  - cbn [push_blank_rows]. rewrite (push_line_snoc _ _ _ _ H). simpl.
    rewrite (IH (set_pages c (ps ++ [add_rows p [None] []])) (add_rows p [None] []) eq_refl).
    rewrite add_rows_add_rows. done.
Qed.

(** Only [compose] writes [last_padding_after]. *)
Lemma update_cur_page_lpa f c c' :
  update_cur_page f c = Some c' -> last_padding_after c' = last_padding_after c.
Proof. intros (ps & p & _ & ->)%update_cur_page_inv. done. Qed.

Lemma push_blank_rows_lpa n c c' :
  push_blank_rows n c = Some c' -> last_padding_after c' = last_padding_after c.
Proof.
  revert c; induction n as [|n IH]; intros c H; simpl in H; [by injection H as <-|].
  destruct (push_line None c) as [c1|] eqn:E; [|discriminate]. simpl in H.
  rewrite (IH _ H). exact (update_cur_page_lpa _ _ _ E).
Qed.

(** ** Steps that only touch the footer *)

Ltac bind_some H :=
  lazymatch type of H with
  | mbind _ ?m = Some _ =>
      let E := fresh "E" in
      destruct m eqn:E; [cbn [mbind option_bind] in H | discriminate H]
  end.

Section Footer_steps.
Variable R : Compositor -> Compositor -> Prop.
Hypothesis R_refl : forall c, R c c.
Hypothesis R_trans : forall a b c, R a b -> R b c -> R a c.
Hypothesis R_footer : forall l c c', push_footer l c = Some c' -> R c c'.
Hypothesis R_footnotes : forall c v, R c (set_footnotes c v).

Lemma place_block_lines_R c m j sp n k ls c' :
  place_block_lines c m j sp n k ls = Some c' -> R c c'.
Proof.
  revert c k; induction ls as [|l ls IH]; intros c k H; simpl in H; [by injection H as <-|].
  bind_some H. apply (R_trans _ _ _ (R_footer _ _ _ E)).
  destruct (_ && _); [bind_some H; apply (R_trans _ _ _ (R_footer _ _ _ E0))|];
    simpl in H; exact (IH _ _ H).
Qed.

Lemma place_footnote_blocks_R c m j bs c' :
  place_footnote_blocks c m j bs = Some c' -> R c c'.
Proof.
  revert c j; induction bs as [|b bs IH]; intros c j H; simpl in H; [by injection H as <-|].
  bind_some H. exact (R_trans _ _ _ (place_block_lines_R _ _ _ _ _ _ _ _ E) (IH _ _ H)).
Qed.

Lemma place_footnotes_R c labels c' :
  place_footnotes c labels = Some c' -> R c c'.
Proof.
  revert c; induction labels as [|l ls IH]; intros c H; simpl in H; [by injection H as <-|].
  destruct (footnotes c !! l); [|exact (IH _ H)].
  bind_some H. bind_some H. bind_some H.
  apply (R_trans _ _ _ (R_footnotes c (delete l (footnotes c)))).
  apply (R_trans _ c0); [|exact (R_trans _ _ _ (place_footnote_blocks_R _ _ _ _ _ E1) (IH _ H))].
  destruct (negb _); [exact (R_footer _ _ _ E0) | injection E0 as <-; apply R_refl].
Qed.
End Footer_steps.

(** ** The shape of a composed line *)

Section Line_steps.
Variable R : Compositor -> Compositor -> Prop.
Hypothesis R_refl : forall c, R c c.
Hypothesis R_trans : forall a b c, R a b -> R b c -> R a c.
Hypothesis R_footer : forall l c c', push_footer l c = Some c' -> R c c'.
Hypothesis R_footnotes : forall c v, R c (set_footnotes c v).
Hypothesis R_page : forall c, R c (start_a_new_page c).

(** A composed line is: steps on the footer and page breaks, the push of
    the line, and possibly the push of one blank row. *)
Lemma compose_line_shape c sp ph i line c' :
  compose_line c sp ph i line = Some c' ->
  exists c2 c3, R c c2 /\ push_line (Some line) c2 = Some c3 /\
    (c' = c3 \/ push_line None c3 = Some c').
Proof.
  unfold compose_line. intros H. bind_some H.
  assert (Hc0 : R c c0).
  { destruct (negb _); [|injection E as <-; apply R_refl].
    bind_some E. bind_some E.
    destruct (Z.ltb _ 1).
    - exact (R_trans _ _ _ (R_page c) (place_footnotes_R R R_refl R_trans R_footer R_footnotes _ _ _ E)).
    - exact (place_footnotes_R R R_refl R_trans R_footer R_footnotes _ _ _ E). }
  bind_some H.
  set (c2 := if Z.ltb _ 1 then start_a_new_page c0 else c0) in H.
  assert (Hc2 : R c c2).
  { subst c2. destruct (Z.ltb _ 1); [exact (R_trans _ _ _ Hc0 (R_page c0)) | exact Hc0]. }
  bind_some H. exists c2, c1. split; [done|]. split; [done|].
  destruct (_ && _); [|injection H as <-; by left].
  bind_some H. bind_some H. destruct (Nat.ltb 1 _); [by right | injection H as <-; by left].
Qed.
End Line_steps.

Lemma start_a_new_page_lpa c : last_padding_after (start_a_new_page c) = last_padding_after c.
Proof. reflexivity. Qed.

Lemma compose_line_lpa c sp ph i line c' :
  compose_line c sp ph i line = Some c' -> last_padding_after c' = last_padding_after c.
Proof.
  intros H.
  destruct (compose_line_shape (fun a b => last_padding_after b = last_padding_after a)
              ltac:(done) ltac:(intros ? ? ? ? ?; congruence)
              ltac:(intros ? ? ? E; exact (update_cur_page_lpa _ _ _ E))
              ltac:(done) ltac:(done) _ _ _ _ _ _ H) as (c2 & c3 & H1 & H2 & H3).
  rewrite <- H1, <- (update_cur_page_lpa _ _ _ H2).
  destruct H3 as [-> | H3]; [done | exact (update_cur_page_lpa _ _ _ H3)].
Qed.

Lemma compose_lines_lpa c sp ph i ls c' :
  compose_lines c sp ph i ls = Some c' -> last_padding_after c' = last_padding_after c.
Proof.
  revert c i; induction ls as [|l ls IH]; intros c i H; simpl in H; [by injection H as <-|].
  bind_some H. rewrite (IH _ _ H). exact (compose_line_lpa _ _ _ _ _ _ E).
Qed.

Lemma compose_block_lpa c b c' :
  compose_block c b = Some c' -> last_padding_after c' = last_padding_after c.
Proof. unfold compose_block. intros H. by rewrite (compose_lines_lpa _ _ _ _ _ _ H). Qed.

Lemma compose_lpa c b c' :
  compose c b = Some c' -> last_padding_after c' = Block.padding_after b.
Proof.
  unfold compose. intros H.
  destruct (Z.ltb _ 0); simpl in H; bind_some H;
    rewrite (compose_block_lpa _ _ _ H), (push_blank_rows_lpa _ _ _ E); done.
Qed.

(** ** C3 *)

(** C3: when a block [B] with a non-negative padding-before is composed
    right after a block [A], exactly [max(B's padding-before, A's
    padding-after)] blank rows are pushed onto the current page before
    [B]'s lines, never their sum. *)
Theorem compose_padding_collapse (st st1 st3 : Compositor) (A B : Block) :
  compose st A = Some st1 ->
  (0 <= Block.padding_before B)%Z ->
  compose st1 B = Some st3 ->
  let n := Nat.max (Z.to_nat (Block.padding_before B)) (Block.padding_after A) in
  exists st2,
    push_blank_rows n (set_last_padding_after st1 (Block.padding_after B)) = Some st2 /\
    compose_block st2 B = Some st3 /\
    forall ps p, pages st1 = ps ++ [p] ->
      pages st2 = ps ++ [add_rows p (repeat None n) []].
Proof.
  intros H1 Hpb H3 n. pose proof (compose_lpa _ _ _ H1) as Hlpa.
  unfold compose in H3.
  destruct (Z.ltb_spec (Block.padding_before B) 0) as [|_]; [lia|].
  cbn [fst snd] in H3. rewrite Hlpa in H3. fold n in H3.
  bind_some H3. exists c. split; [done|]. split; [done|].
  intros ps p Hp.
  rewrite (push_blank_rows_snoc n (set_last_padding_after st1 (Block.padding_after B)) ps p Hp) in E.
  injection E as <-. done.
Qed.

(** The two cases of the specification, through [run]: padding-after 2
    then padding-before 3 gives 3 blank rows, padding-after 3 then
    padding-before 1 gives 3. *)
Example compose_padding_cases :
  option_map (fun c => map Page.lines (pages c))
    (run (new 1 false) [Block.mk [line_of_segment (segment_of_str "a")] [] Single 0 2 None;
                        Block.mk [line_of_segment (segment_of_str "b")] [] Single 3 0 None])
  = Some [[Some (line_of_segment (segment_of_str "a")); None; None; None;
           Some (line_of_segment (segment_of_str "b"))]] /\
  option_map (fun c => map Page.lines (pages c))
    (run (new 1 false) [Block.mk [line_of_segment (segment_of_str "a")] [] Single 0 3 None;
                        Block.mk [line_of_segment (segment_of_str "b")] [] Single 1 0 None])
  = Some [[Some (line_of_segment (segment_of_str "a")); None; None; None;
           Some (line_of_segment (segment_of_str "b"))]].
Proof. split; reflexivity. Qed.

Lemma compose_padding_collapse_witness :
  let st := start_a_new_page (set_next_page_no (new 1 false) 1) in
  let A := Block.mk [line_of_segment (segment_of_str "a")] [] Single 0 2 None in
  let B := Block.mk [line_of_segment (segment_of_str "b")] [] Single 3 0 None in
  exists st1 st3,
    compose st A = Some st1 /\ (0 <= Block.padding_before B)%Z /\ compose st1 B = Some st3 /\
    exists st2,
      push_blank_rows 3 (set_last_padding_after st1 (Block.padding_after B)) = Some st2 /\
      compose_block st2 B = Some st3 /\
      forall ps p, pages st1 = ps ++ [p] -> pages st2 = ps ++ [add_rows p (repeat None 3) []].
Proof.
  intros st A B. eexists _, _. split; [reflexivity|]. split; [simpl; lia|]. split; [reflexivity|].
  exact (compose_padding_collapse st _ _ A B eq_refl ltac:(simpl; lia) eq_refl).
Defined.

(** ** The content rows *)

Lemma content_snoc c ps (p : Page) :
  pages c = ps ++ [p] ->
  content c = omap id (concat (map Page.lines ps)) ++ omap id (Page.lines p).
Proof.
  intros H. unfold content. rewrite H, map_app, concat_app, omap_app. simpl.
  by rewrite app_nil_r.
Qed.

Lemma push_line_content l c c' :
  push_line l c = Some c' -> content c' = content c ++ omap id [l].
Proof.
  intros (ps & p & Hp & ->)%update_cur_page_inv.
  rewrite (content_snoc _ _ _ Hp), (content_snoc (set_pages c (ps ++ _)) ps _ eq_refl).
  simpl. rewrite omap_app, app_assoc. done.
Qed.

Lemma push_footer_content l c c' : push_footer l c = Some c' -> content c' = content c.
Proof.
  intros (ps & p & Hp & ->)%update_cur_page_inv.
  by rewrite (content_snoc _ _ _ Hp), (content_snoc (set_pages c (ps ++ _)) ps _ eq_refl).
Qed.

Lemma start_a_new_page_content c : content (start_a_new_page c) = content c.
Proof.
  unfold content, start_a_new_page. simpl.
  rewrite map_app, concat_app, omap_app. simpl. by rewrite !app_nil_r.
Qed.

Lemma push_blank_rows_content n c c' : push_blank_rows n c = Some c' -> content c' = content c.
Proof.
  revert c; induction n as [|n IH]; intros c H; simpl in H; [by injection H as <-|].
  bind_some H. rewrite (IH _ H), (push_line_content _ _ _ E), app_nil_r. done.
Qed.

Lemma compose_line_content c sp ph i line c' :
  compose_line c sp ph i line = Some c' -> content c' = content c ++ [line].
Proof.
  intros H.
  destruct (compose_line_shape (fun a b => content b = content a)
              ltac:(done) ltac:(intros ? ? ? ? ?; congruence)
              ltac:(intros ? ? ? E; exact (push_footer_content _ _ _ E))
              ltac:(done) ltac:(intros; apply start_a_new_page_content)
              _ _ _ _ _ _ H) as (c2 & c3 & H1 & H2 & H3).
  pose proof (push_line_content _ _ _ H2) as E3. simpl in E3. rewrite H1 in E3.
  destruct H3 as [-> | H3]; [done|].
  rewrite (push_line_content _ _ _ H3), E3. simpl. rewrite app_nil_r. done.
Qed.

Lemma compose_lines_content c sp ph i ls c' :
  compose_lines c sp ph i ls = Some c' -> content c' = content c ++ ls.
Proof.
  revert c i; induction ls as [|l ls IH]; intros c i H; simpl in H.
  - injection H as <-. by rewrite app_nil_r.
  - bind_some H. rewrite (IH _ _ H), (compose_line_content _ _ _ _ _ _ E), <- app_assoc. done.
Qed.

Lemma compose_block_content c b c' :
  compose_block c b = Some c' -> content c' = content c ++ Block.lines b.
Proof. unfold compose_block. intros H. by rewrite (compose_lines_content _ _ _ _ _ _ H). Qed.

Lemma compose_content c b c' :
  compose c b = Some c' -> content c' = content c ++ Block.lines b.
Proof.
  unfold compose. intros H.
  destruct (Z.ltb _ 0); simpl in H; bind_some H;
    rewrite (compose_block_content _ _ _ H), (push_blank_rows_content _ _ _ E); [|done].
  change (content (set_last_padding_after (set_last_padding_after (start_a_new_page c) 0)
                    (Block.padding_after b))) with (content (start_a_new_page c)).
  rewrite start_a_new_page_content. done.
Qed.

Lemma run_loop_content c toc blocks c' toc' :
  Forall (fun b => Block.tag b <> Some ToC) blocks ->
  run_loop c toc blocks = Some (c', toc') ->
  toc' = toc /\ content c' = content c ++ body_lines blocks.
Proof.
  revert c; induction blocks as [|b bs IH]; intros c HT H; simpl in H.
  - injection H as <- <-. simpl. by rewrite app_nil_r.
  - inversion HT as [|? ? Hb HT']; subst. simpl.
    destruct (Block.tag b) as [[| |]|] eqn:Et.
    + exact (IH _ HT' H).
    + bind_some H. destruct (IH _ HT' H) as [-> ->].
      rewrite (compose_content _ _ _ E), <- app_assoc. done.
    + done.
    + bind_some H. destruct (IH _ HT' H) as [-> ->].
      rewrite (compose_content _ _ _ E), <- app_assoc. done.
Qed.

(** ** C4 *)

(** C4 (the counterexample): a ToC-tagged block is not composed in its
    place.  Before a plain block "foo", the entry "Chapter" is deferred
    to a table of contents composed after all other blocks, under a
    header line, and its first line gets a dot-leader segment with the
    page number; so the block order is not preserved and the line in the
    pages is not the input line. *)
Lemma run_toc_block_reordered :
  option_map (fun c => map line_texts (content c))
    (run (new 1 false) [Block.mk [line_of_segment (segment_of_str "Chapter")] [] Single 0 0 (Some ToC);
                        Block.mk [line_of_segment (segment_of_str "foo")] [] Single 0 0 None])
  = Some [["foo"%string]; ["Table of Contents"%string];
          ["Chapter"%string; (" " ++ repeat_str ". " 28 ++ "1")%string]].
Proof. reflexivity. Qed.

(** For a block list without ToC-tagged blocks, when
    [run] returns, the content rows it adds to the pages are exactly the
    lines of the non-contact blocks, each once, in block order and in
    order within each block; blocks may be split across pages, but no
    line is reordered, duplicated or dropped. *)
Theorem run_preserves_lines (c c' : Compositor) (blocks : BlockList) :
  Forall (fun b => Block.tag b <> Some ToC) blocks ->
  run c blocks = Some c' ->
  content c' = content c ++ body_lines blocks.
Proof.
  intros HT H. unfold run in H.
  set (c0 := if is_empty (pages c) then _ else c) in H.
  assert (Hc0 : content c0 = content c).
  { subst c0. destruct (is_empty _); [|done]. destruct (has_structure c).
    - change (content (start_a_new_page c) = content c). apply start_a_new_page_content.
    - rewrite start_a_new_page_content. done. }
  bind_some H. destruct p as [c1 toc].
  destruct (run_loop_content _ _ _ _ _ HT E) as [-> Hc1].
  simpl in H. injection H as <-. rewrite Hc1, Hc0. done.
Qed.

(** ** The table of pending footnotes *)

Lemma add_footnotes_snoc m defs d :
  add_footnotes m (defs ++ [d]) = <[d.1 := d.2]> (add_footnotes m defs).
Proof. unfold add_footnotes. rewrite foldl_app. by destruct d. Qed.

Lemma add_footnotes_lookup m defs k :
  add_footnotes m defs !! k =
    match last_def k defs with Some fn => Some fn | None => m !! k end.
Proof.
  induction defs as [|[l fn] defs IH] using rev_ind; [done|].
  rewrite add_footnotes_snoc. unfold last_def. rewrite filter_app, map_app. simpl.
  destruct (decide (l = k)) as [->|Hne].
  - rewrite lookup_insert_eq, filter_cons_True by done. simpl. by rewrite last_snoc.
  - rewrite lookup_insert_ne, filter_cons_False by done. simpl. rewrite app_nil_r. exact IH.
Qed.

Lemma last_def_elem label fn defs :
  (label, fn) ∈ defs -> exists fn', last_def label defs = Some fn'.
Proof.
  intros H. unfold last_def.
  destruct (last _) as [fn'|] eqn:E; [by exists fn'|].
  apply last_None in E. apply map_eq_nil in E.
  assert (Hf : (label, fn) ∈ filter (fun d : string * BlockList => d.1 = label) defs)
    by (apply list_elem_of_filter; done).
  rewrite E in Hf. inversion Hf.
Qed.

Lemma add_footnotes_agree m1 m2 label fn defs :
  (forall k, k <> label -> m1 !! k = m2 !! k) -> (label, fn) ∈ defs ->
  add_footnotes m1 defs = add_footnotes m2 defs.
Proof.
  intros Hag Hin. apply map_eq. intros k. rewrite !add_footnotes_lookup.
  destruct (last_def k defs) eqn:E; [done|].
  destruct (decide (k = label)) as [->|Hne]; [|by apply Hag].
  destruct (last_def_elem _ _ _ Hin) as [fn' E']. congruence.
Qed.

(** ** C10 *)

(** C10: when a block defines a footnote under a label that already has
    a pending definition, [compose_block] behaves as if the earlier
    definition had never been pending, so it is never emitted; the table
    maps the label to the block's last definition of it before any line
    of the block is composed. *)
Theorem compose_block_footnote_redefined (c : Compositor) (B : Block) (label : string)
    (fn_old fn : BlockList) :
  footnotes c !! label = Some fn_old ->
  (label, fn) ∈ Block.footnotes B ->
  compose_block c B = compose_block (set_footnotes c (delete label (footnotes c))) B /\
  compose_block c B =
    compose_lines (set_footnotes c (add_footnotes (footnotes c) (Block.footnotes B)))
      (Block.line_spacing B) (length (Block.lines B)) 0 (Block.lines B) /\
  add_footnotes (footnotes c) (Block.footnotes B) !! label = last_def label (Block.footnotes B).
Proof.
  intros Hold Hin. split; [|split; [done|]].
  - unfold compose_block. simpl.
    rewrite (add_footnotes_agree (footnotes c) (delete label (footnotes c)) label fn); [done| |done].
    intros k Hk. rewrite lookup_delete_ne; congruence.
  - rewrite add_footnotes_lookup. destruct (last_def_elem _ _ _ Hin) as [fn' ->]. done.
Qed.

Lemma compose_block_footnote_redefined_witness :
  let fn_old := [Block.mk [line_of_segment (segment_of_str "old")] [] Single 0 0 None] in
  let fn := [Block.mk [line_of_segment (segment_of_str "new")] [] Single 0 0 None] in
  let c := start_a_new_page (set_footnotes (new 1 false) {[ "x"%string := fn_old ]}) in
  let B := Block.mk [Line.mk 0 [segment_of_str "text"] ["x"%string]] [("x"%string, fn)] Single 0 0 None in
  footnotes c !! "x"%string = Some fn_old /\ ("x"%string, fn) ∈ Block.footnotes B /\
  compose_block c B = compose_block (set_footnotes c (delete "x"%string (footnotes c))) B /\
  compose_block c B =
    compose_lines (set_footnotes c (add_footnotes (footnotes c) (Block.footnotes B)))
      (Block.line_spacing B) (length (Block.lines B)) 0 (Block.lines B) /\
  add_footnotes (footnotes c) (Block.footnotes B) !! "x"%string = last_def "x"%string (Block.footnotes B).
Proof.
  intros fn_old fn c B.
  assert (H1 : footnotes c !! "x"%string = Some fn_old) by reflexivity.
  assert (H2 : ("x"%string, fn) ∈ Block.footnotes B) by (simpl; apply list_elem_of_here).
  split; [exact H1|]. split; [exact H2|].
  exact (compose_block_footnote_redefined c B "x"%string fn_old fn H1 H2).
Defined.

(** ** Placing footnotes *)

Lemma footnotes_eq_refl c : footnotes c = footnotes c.
Proof. done. Qed.

Lemma place_footnote_blocks_footnotes c m j bs c' :
  place_footnote_blocks c m j bs = Some c' -> footnotes c' = footnotes c.
Proof.
  apply (place_footnote_blocks_R (fun a b => footnotes b = footnotes a)).
  - done.
  - intros ? ? ? ? ?; congruence.
  - intros l a b (ps & p & _ & ->)%update_cur_page_inv. done.
Qed.

Lemma place_footnotes_none c labels c' k :
  place_footnotes c labels = Some c' -> footnotes c !! k = None -> footnotes c' !! k = None.
Proof.
  revert c; induction labels as [|l ls IH]; intros c H Hk; simpl in H; [by injection H as <-|].
  destruct (footnotes c !! l) eqn:El; [|exact (IH _ H Hk)].
  bind_some H. bind_some H. bind_some H. apply (IH _ H).
  rewrite (place_footnote_blocks_footnotes _ _ _ _ _ E1).
  assert (Hf : footnotes c0 = delete l (footnotes c)).
  { destruct (negb _); [|by injection E0 as <-].
    destruct (update_cur_page_inv _ _ _ E0) as (ps & p & _ & ->). done. }
  rewrite Hf, lookup_delete. by destruct (decide _).
Qed.

Lemma place_footnotes_consumed c labels c' :
  place_footnotes c labels = Some c' ->
  (forall l, l ∈ labels -> footnotes c' !! l = None) /\
  (forall l, l ∉ labels -> footnotes c' !! l = footnotes c !! l).
Proof.
  revert c; induction labels as [|l ls IH]; intros c H; simpl in H.
  - injection H as <-. split; [intros l Hl; inversion Hl | done].
  - destruct (footnotes c !! l) eqn:El.
    + bind_some H. bind_some H. bind_some H.
      assert (Hf : footnotes c1 = delete l (footnotes c)).
      { rewrite (place_footnote_blocks_footnotes _ _ _ _ _ E1).
        destruct (negb _); [|by injection E0 as <-].
        destruct (update_cur_page_inv _ _ _ E0) as (ps & p & _ & ->). done. }
      destruct (IH _ H) as [H1 H2]. split.
      * intros l' Hl'. apply elem_of_cons in Hl' as [->|Hl']; [|by apply H1].
        apply (place_footnotes_none _ _ _ _ H). rewrite Hf. apply lookup_delete_eq.
      * intros l' Hl'. rewrite H2 by (intros Hin; apply Hl'; by apply elem_of_cons; right).
        rewrite Hf. apply lookup_delete_ne. intros ->. apply Hl'. apply elem_of_cons. by left.
    + destruct (IH _ H) as [H1 H2]. split.
      * intros l' Hl'. apply elem_of_cons in Hl' as [->|Hl']; [|by apply H1].
        exact (place_footnotes_none _ _ _ _ H El).
      * intros l' Hl'. apply H2. intros Hin. apply Hl'. apply elem_of_cons. by right.
Qed.

Lemma place_footnotes_unresolved c labels :
  (forall l, l ∈ labels -> footnotes c !! l = None) -> place_footnotes c labels = Some c.
Proof.
  induction labels as [|l ls IH]; intros H; [done|]. simpl.
  rewrite (H l ltac:(apply elem_of_cons; by left)).
  apply IH. intros l' Hl'. apply H. apply elem_of_cons. by right.
Qed.

Lemma footer_height_unresolved fns labels :
  (forall l, l ∈ labels -> fns !! l = None) -> footer_height_loop fns labels 0 0 = Some 0.
Proof.
  induction labels as [|l ls IH]; intros H; [done|]. simpl.
  rewrite (H l ltac:(apply elem_of_cons; by left)).
  apply IH. intros l' Hl'. apply H. apply elem_of_cons. by right.
Qed.

(** ** C8 *)


(** ** Double spacing *)

Lemma spaced_rows_cons sp l ls :
  ls <> [] -> spaced_rows sp (l :: ls) = Some l :: (if is_double sp then [None] else []) ++ spaced_rows sp ls.
Proof. destruct ls; [done | reflexivity]. Qed.

Lemma spaced_rows_length sp ls :
  length (spaced_rows sp ls) = match ls with [] => 0 | _ :: _ => if is_double sp then 2 * length ls - 1 else length ls end.
Proof.
  induction ls as [|l ls IH]; [done|].
  destruct ls as [|l' ls]; [by destruct sp|].
  rewrite spaced_rows_cons by done. cbn [length]. rewrite length_app, IH.
  destruct sp; simpl; lia.
Qed.

Lemma compose_lines_fit c ps p sp ph i ls :
  pages c = ps ++ [p] -> Page.footer p = [] ->
  Forall (fun l => Line.note_refs l = []) ls ->
  i + length ls = ph ->
  length (Page.lines p) + length (spaced_rows sp ls) + 1 <= Page.height p ->
  compose_lines c sp ph i ls = Some (set_pages c (ps ++ [add_rows p (spaced_rows sp ls) []])).
Proof.
  revert c p i; induction ls as [|l ls IH]; intros c p i Hp Hf Hnr Hi Hh.
  - simpl. rewrite add_rows_nil, <- Hp. by destruct c.
  - apply Forall_cons in Hnr as [Hl Hnr'].
    cbn [compose_lines]. unfold compose_line. rewrite Hl. cbn [is_empty negb].
    cbn [mbind option_bind]. rewrite (cur_page_snoc _ _ _ Hp). cbn [mbind option_bind].
    rewrite Hf. cbn [is_empty negb].
    assert (Hlen : 1 <= length (spaced_rows sp (l :: ls)))
      by (rewrite spaced_rows_length; destruct sp; simpl; lia).
    destruct (Z.ltb_spec (Z.of_nat (Page.height p) - Z.of_nat (length (Page.lines p)) - 1) 1)
      as [Hlt|_]; [lia|].
    rewrite (push_line_snoc _ _ _ _ Hp). cbn [mbind option_bind].
    destruct ls as [|l' ls].
    + simpl in Hi. destruct (Nat.ltb_spec i (ph - 1)) as [|_]; [lia|]. simpl. done.
    + destruct (Nat.ltb_spec i (ph - 1)) as [_|]; [|simpl in Hi; lia].
      assert (Hrest : 1 <= length (spaced_rows sp (l' :: ls)))
        by (rewrite spaced_rows_length; destruct sp; simpl; lia).
      rewrite spaced_rows_cons in * by done. cbn [length] in Hh. rewrite length_app in Hh.
      destruct sp; cbn [andb is_double].
      * cbn [mbind option_bind].
        rewrite (IH (set_pages c (ps ++ [add_rows p [Some l] []])) (add_rows p [Some l] []) (S i) eq_refl);
          [| simpl; rewrite Hf; done | done | simpl in Hi |- *; lia
           | simpl in Hh |- *; rewrite !length_app; simpl; lia].
        rewrite !add_rows_add_rows. done.
      * rewrite (cur_page_snoc (set_pages c (ps ++ [add_rows p [Some l] []])) ps (add_rows p [Some l] []) eq_refl).
        cbn [mbind option_bind].
        rewrite usize_sub_le by (simpl; rewrite length_app; simpl; lia). cbn [mbind option_bind].
        destruct (Nat.ltb_spec 1 (Page.height (add_rows p [Some l] []) -
                                  length (Page.lines (add_rows p [Some l] [])))) as [_|Hc];
          [|simpl in Hc, Hh; rewrite length_app in Hc; simpl in Hc, Hh; lia].
        rewrite (push_line_snoc None (set_pages c (ps ++ [add_rows p [Some l] []])) ps
                  (add_rows p [Some l] []) eq_refl). cbn [mbind option_bind].
        rewrite (IH _ (add_rows (add_rows p [Some l] []) [None] []) (S i));
          [| done | simpl; rewrite Hf; done | done | simpl in Hi |- *; lia
           | simpl in Hh |- *; rewrite !length_app; simpl; lia].
        rewrite !add_rows_add_rows. done.
Qed.

Lemma count_lines_spaced_rows b n :
  Block.count_lines b = Some n ->
  length (spaced_rows (Block.line_spacing b) (Block.lines b)) = n.
Proof.
  unfold Block.count_lines. rewrite spaced_rows_length.
  destruct (Block.line_spacing b); simpl.
  - intros [= <-]. by destruct (Block.lines b).
  - destruct (Block.lines b) as [|l ls]; [discriminate|].
    rewrite usize_sub_le by (simpl; lia). intros [= <-]. simpl. lia.
Qed.

(** ** C7 *)

(** At the page bottom: placed on a page with 2 free rows, a
    double-spaced block of 2 lines, for which [Block::count_lines] is 3,
    occupies 2 rows: its blank row is dropped at the page bottom and its
    second line goes to the next page. *)
Lemma compose_block_double_at_page_bottom :
  let b := Block.mk [line_of_segment (segment_of_str "one"); line_of_segment (segment_of_str "two")]
             [] Double 0 0 None in
  let c := mkCompositor None [Page.mk 1 54 (repeat None 52) []] ∅ 1 2 false 0 in
  Block.count_lines b = Some 3 /\
  option_map (fun c => map Page.lines (pages c)) (compose_block c b)
  = Some [repeat None 52 ++ [Some (line_of_segment (segment_of_str "one"))];
          [Some (line_of_segment (segment_of_str "two"))]].
Proof. split; reflexivity. Qed.

(** Row accounting: [Block::count_lines] is [n] for a single-spaced block
    of [n] lines and [2n - 1] for a double-spaced block of [n >= 1] lines
    (the empty double-spaced block underflows); when the block fits on
    the current page ([count_lines] rows and the reserved bottom row are
    free, the footer is empty and no line has note references),
    [compose_block] appends to that page exactly [count_lines] rows: its
    lines, separated by blank rows when double-spaced. *)
Theorem compose_block_rows (c : Compositor) (b : Block) (ps : list Page) (p : Page) :
  (Block.line_spacing b = Single -> Block.count_lines b = Some (length (Block.lines b))) /\
  (Block.line_spacing b = Double -> Block.lines b <> [] ->
     Block.count_lines b = Some (2 * length (Block.lines b) - 1)) /\
  (pages c = ps ++ [p] -> Page.footer p = [] ->
   Forall (fun l => Line.note_refs l = []) (Block.lines b) ->
   forall n, Block.count_lines b = Some n -> length (Page.lines p) + n + 1 <= Page.height p ->
   exists c', compose_block c b = Some c' /\
     pages c' = ps ++ [add_rows p (spaced_rows (Block.line_spacing b) (Block.lines b)) []] /\
     length (spaced_rows (Block.line_spacing b) (Block.lines b)) = n).
Proof.
  split; [|split].
  - unfold Block.count_lines. intros ->. done.
  - unfold Block.count_lines. intros -> Hne.
    destruct (Block.lines b) as [|l ls]; [done|]. rewrite usize_sub_le by (simpl; lia). f_equal. lia.
  - intros Hp Hf Hnr n Hn Hh.
    pose proof (count_lines_spaced_rows _ _ Hn) as Hlen.
    unfold compose_block.
    rewrite (compose_lines_fit (set_footnotes c (add_footnotes (footnotes c) (Block.footnotes b))) ps p
               (Block.line_spacing b) (length (Block.lines b)) 0 (Block.lines b)
               Hp Hf Hnr ltac:(done) ltac:(lia)).
    eexists. split; [reflexivity|]. split; done.
Qed.

(** ** Footnote rows *)

Lemma set_pages_twice c x y : set_pages (set_pages c x) y = set_pages c y.
Proof. done. Qed.

Lemma place_block_lines_snoc c ps p m j sp n k ls :
  pages c = ps ++ [p] ->
  exists rows, place_block_lines c m j sp n k ls = Some (set_pages c (ps ++ [add_rows p [] rows])) /\
    omap id rows = ls /\ length rows <= 2 * length ls.
Proof.
  revert c p k; induction ls as [|l ls IH]; intros c p k Hp.
  - exists []. rewrite add_rows_nil, <- Hp. split; [by destruct c | done].
  - cbn [place_block_lines]. rewrite (push_footer_snoc _ _ _ _ Hp). cbn [mbind option_bind].
    destruct (_ && _).
    + rewrite (push_footer_snoc None (set_pages c (ps ++ [add_rows p [] [Some l]])) ps
                 (add_rows p [] [Some l]) eq_refl).
      cbn [mbind option_bind].
      destruct (IH (set_pages c (ps ++ [add_rows (add_rows p [] [Some l]) [] [None]]))
                  (add_rows (add_rows p [] [Some l]) [] [None]) (S k) eq_refl)
        as (rows & E & Ho & Hl).
      exists (Some l :: None :: rows). rewrite set_pages_twice, E, set_pages_twice, !add_rows_add_rows.
      split; [done|]. split; [change (l :: omap id rows = l :: ls); by rewrite Ho | simpl; lia].
    + cbn [mbind option_bind].
      destruct (IH (set_pages c (ps ++ [add_rows p [] [Some l]])) (add_rows p [] [Some l]) (S k) eq_refl)
        as (rows & E & Ho & Hl).
      exists (Some l :: rows). rewrite E, set_pages_twice, !add_rows_add_rows.
      split; [done|]. split; [change (l :: omap id rows = l :: ls); by rewrite Ho | simpl; lia].
Qed.

Lemma place_footnote_blocks_snoc c ps p m j bs :
  pages c = ps ++ [p] ->
  exists rows, place_footnote_blocks c m j bs = Some (set_pages c (ps ++ [add_rows p [] rows])) /\
    omap id rows = concat (map Block.lines bs) /\
    length rows <= 2 * length (concat (map Block.lines bs)).
Proof.
  revert c p j; induction bs as [|b bs IH]; intros c p j Hp.
  - exists []. rewrite add_rows_nil, <- Hp. split; [by destruct c | done].
  - cbn [place_footnote_blocks].
    destruct (place_block_lines_snoc c ps p m j (Block.line_spacing b) (length (Block.lines b)) 0
                (Block.lines b) Hp) as (r1 & E1 & Ho1 & Hl1).
    rewrite E1. cbn [mbind option_bind].
    destruct (IH (set_pages c (ps ++ [add_rows p [] r1])) (add_rows p [] r1) (S j) eq_refl)
      as (r2 & E2 & Ho2 & Hl2).
    exists (r1 ++ r2). rewrite E2, set_pages_twice, add_rows_add_rows. split; [done|].
    simpl. rewrite omap_app, Ho1, Ho2, !length_app. split; [done | lia].
Qed.

Lemma block_count_lines_ge b n : Block.count_lines b = Some n -> length (Block.lines b) <= n.
Proof.
  unfold Block.count_lines, usize_sub. destruct (Block.line_spacing b).
  - intros [= <-]. done.
  - destruct (Nat.leb_spec 1 (length (Block.lines b) * 2)); [intros [= <-]; lia | discriminate].
Qed.

Lemma count_lines_loop_ge bs i n lpa r :
  count_lines_loop bs i n lpa = Some r -> n + length (concat (map Block.lines bs)) <= r.
Proof.
  revert i n lpa; induction bs as [|b bs IH]; intros i n lpa H; simpl in H.
  - injection H as <-. simpl. lia.
  - bind_some H. pose proof (IH _ _ _ H) as Hr. pose proof (block_count_lines_ge _ _ E).
    simpl. rewrite length_app. destruct (_ && _); lia.
Qed.

Lemma footer_height_single fns label fn n :
  fns !! label = Some fn -> count_lines fn = Some n ->
  footer_height_loop fns [label] 0 0 = Some n.
Proof. intros H1 H2. simpl. rewrite H1. cbn [mbind option_bind]. rewrite H2. done. Qed.

(** C2: when the current page has only two free content rows and a line
    references a single pending footnote that needs five footer rows, the
    footer cannot fit beside the line, so [compose_line] starts a new page
    before placing anything: the current page is left as it was, and the
    footnote (in the footer) and the line (as the first content row) both
    land on the new page, which carries the next page number; the
    footnote is taken out of the pending table. *)
Theorem compose_line_footnote_overflow (st : Compositor) (ps : list Page) (p : Page)
    (label : string) (fn : BlockList) (line : Line) (sp : LineSpacing) (ph i : nat) :
  pages st = ps ++ [p] ->
  length (Page.lines p) + 2 = Page.height p ->
  Line.note_refs line = [label] ->
  footnotes st !! label = Some fn ->
  count_lines fn = Some 5 ->
  exists st' p', compose_line st sp ph i line = Some st' /\
    pages st' = ps ++ [p; p'] /\
    Page.number p' = next_page_no st /\
    omap id (Page.footer p') = concat (map Block.lines fn) /\
    take 1 (Page.lines p') = [Some line] /\
    footnotes st' !! label = None.
Proof.
  intros Hp Hh Hnr Hfn Hc.
  pose proof (count_lines_loop_ge _ _ _ _ _ Hc) as Hge.
  unfold compose_line. rewrite Hnr. cbn [is_empty negb].
  rewrite (footer_height_single _ _ _ _ Hfn Hc). cbn [mbind option_bind].
  rewrite (cur_page_snoc _ _ _ Hp). cbn [mbind option_bind].
  match goal with |- context [Z.ltb ?e 1] => replace (Z.ltb e 1) with true
    by (symmetry; apply Z.ltb_lt; destruct (negb _); lia) end.
  set (p0 := Page.mk (next_page_no st) (TOP_LINE - BOTTOM_LINE + 1) [] []).
  cbn [place_footnotes].
  change (footnotes (start_a_new_page st)) with (footnotes st). rewrite Hfn.
  set (c0 := set_footnotes (start_a_new_page st) (delete label (footnotes st))).
  assert (Hp0 : pages c0 = (ps ++ [p]) ++ [p0]) by (simpl; by rewrite Hp).
  rewrite (cur_page_snoc _ _ _ Hp0). cbn [mbind option_bind Page.footer p0 is_empty negb].
  destruct (place_footnote_blocks_snoc c0 (ps ++ [p]) p0 (length fn) 0 fn Hp0) as (rows & E & Ho & Hl).
  rewrite E. cbn [mbind option_bind place_footnotes].
  set (p1 := add_rows p0 [] rows).
  set (c1 := set_pages c0 ((ps ++ [p]) ++ [p1])).
  assert (Hp1 : pages c1 = (ps ++ [p]) ++ [p1]) by done.
  rewrite (cur_page_snoc _ _ _ Hp1). cbn [mbind option_bind].
  assert (Hh1 : Page.height p1 = 54) by done.
  assert (Hl1 : Page.lines p1 = []) by done.
  assert (Hf1 : Page.footer p1 = rows) by done.
  rewrite Hh1, Hl1, Hf1.
  match goal with |- context [Z.ltb ?e 1] => replace (Z.ltb e 1) with false
    by (symmetry; apply Z.ltb_ge; destruct (negb _); simpl; lia) end.
  rewrite (push_line_snoc _ _ _ _ Hp1). cbn [mbind option_bind].
  set (p2 := add_rows p1 [Some line] []).
  assert (Hfc : footnotes c0 !! label = None) by (simpl; apply lookup_delete_eq).
  destruct (_ && _).
  - rewrite (cur_page_snoc (set_pages c1 ((ps ++ [p]) ++ [p2])) (ps ++ [p]) p2 eq_refl).
    cbn [mbind option_bind].
    assert (Hq : Page.height p2 = 54 /\ Page.lines p2 = [Some line]) by (split; reflexivity).
    destruct Hq as [Hq1 Hq2]. rewrite Hq1, Hq2, usize_sub_le by (simpl; lia). cbn [mbind option_bind].
    replace (Nat.ltb 1 (54 - length [Some line])) with true by done.
    rewrite (push_line_snoc None (set_pages c1 ((ps ++ [p]) ++ [p2])) (ps ++ [p]) p2 eq_refl).
    eexists _, (add_rows p2 [None] []). split; [done|].
    split; [simpl; by rewrite <- app_assoc|].
    split; [done|]. split; [rewrite <- Ho; unfold p2, p1, p0; simpl; by rewrite !app_nil_r|].
    split; [done|]. exact Hfc.
  - eexists _, p2. split; [done|].
    split; [simpl; by rewrite <- app_assoc|].
    split; [done|]. split; [rewrite <- Ho; unfold p2, p1, p0; simpl; by rewrite !app_nil_r|].
    split; [simpl; done|]. exact Hfc.
Qed.

Lemma compose_line_footnote_overflow_witness :
  let fn := [Block.mk (map (fun s => line_of_segment (segment_of_str s)) ["n1"; "n2"; "n3"; "n4"; "n5"])
               [] Single 0 0 None] in
  let p := Page.mk 1 54 (repeat None 52) [] in
  let st := mkCompositor None [p] {[ "x"%string := fn ]} 1 2 false 0 in
  let line := Line.mk 0 [segment_of_str "a"] ["x"%string] in
  (pages st = [] ++ [p] /\ length (Page.lines p) + 2 = Page.height p /\
   Line.note_refs line = ["x"%string] /\ footnotes st !! "x"%string = Some fn /\
   count_lines fn = Some 5) /\
  exists st' p', compose_line st Double 2 0 line = Some st' /\
    pages st' = [] ++ [p; p'] /\
    Page.number p' = next_page_no st /\
    omap id (Page.footer p') = concat (map Block.lines fn) /\
    take 1 (Page.lines p') = [Some line] /\
    footnotes st' !! "x"%string = None.
Proof.
  intros fn p st line.
  assert (H : pages st = [] ++ [p] /\ length (Page.lines p) + 2 = Page.height p /\
              Line.note_refs line = ["x"%string] /\ footnotes st !! "x"%string = Some fn /\
              count_lines fn = Some 5) by (vm_compute; repeat split).
  split; [exact H|].
  destruct H as (H1 & H2 & H3 & H4 & H5).
  exact (compose_line_footnote_overflow st [] p "x"%string fn line Double 2 0 H1 H2 H3 H4 H5).
Defined.
Lemma string_app_cons x (a b : string) : (String x a ++ b)%string = String x (a ++ b).
Proof. reflexivity. Qed.

Lemma string_app_nil_l (a : string) : (EmptyString ++ a)%string = a.
Proof. reflexivity. Qed.

Lemma string_app_assoc (a b c : string) : ((a ++ b) ++ c)%string = (a ++ b ++ c)%string.
Proof. induction a as [|x a IH]; [done|]. rewrite !string_app_cons, IH. done. Qed.

Lemma string_app_nil_r (a : string) : (a ++ EmptyString)%string = a.
Proof. induction a as [|x a IH]; [done|]. rewrite string_app_cons, IH. done. Qed.

Lemma replace_char_app c r a b :
  replace_char c r (a ++ b) = (replace_char c r a ++ replace_char c r b)%string.
Proof.
  induction a as [|x a IH]; simpl; [done|].
  destruct (Ascii.eqb x c); rewrite ?string_app_cons, IH; [by rewrite string_app_assoc | done].
Qed.

Lemma replace_char_single_ne c r a :
  Ascii.eqb a c = false -> replace_char c r (String a EmptyString) = String a EmptyString.
Proof. intros H. simpl. by rewrite H. Qed.

Lemma segment_of_str_passes s :
  replace_char ")"%char (String backslash ")"%string)
    (replace_char "("%char (String backslash "("%string)
       (replace_char backslash (String backslash (String backslash ""%string)) s)) = ps_escape s.
Proof.
  induction s as [|a s IH]; [done|].
  change (String a s) with (String a EmptyString ++ s)%string.
  rewrite !replace_char_app, IH.
  change (ps_escape (String a "" ++ s)) with (ps_escape (String a s)). cbn [ps_escape]. f_equal.
  destruct (Ascii.eqb_spec a backslash) as [->|Hb]; [reflexivity|].
  rewrite (replace_char_single_ne _ _ _ (proj2 (Ascii.eqb_neq _ _) Hb)).
  destruct (Ascii.eqb_spec a "("%char) as [->|Ho]; [reflexivity|].
  rewrite (replace_char_single_ne _ _ _ (proj2 (Ascii.eqb_neq _ _) Ho)).
  destruct (Ascii.eqb_spec a ")"%char) as [->|Hc]; [reflexivity|].
  rewrite (replace_char_single_ne _ _ _ (proj2 (Ascii.eqb_neq _ _) Hc)).
  done.
Qed.

Lemma ps_escape_sound s : ps_safe (ps_escape s) = true /\ ps_unescape (ps_escape s) = s.
Proof.
  induction s as [|a s [IH1 IH2]]; [done|]. cbn [ps_escape].
  destruct (Ascii.eqb_spec a backslash) as [->|Hb];
    [rewrite ?string_app_cons, ?string_app_nil_l; simpl; rewrite IH1, IH2; done|].
  destruct (Ascii.eqb_spec a "("%char) as [->|Ho];
    [rewrite ?string_app_cons, ?string_app_nil_l; simpl; rewrite IH1, IH2; done|].
  destruct (Ascii.eqb_spec a ")"%char) as [->|Hc];
    [rewrite ?string_app_cons, ?string_app_nil_l; simpl; rewrite IH1, IH2; done|].
  rewrite ?string_app_cons, ?string_app_nil_l. simpl.
  apply Ascii.eqb_neq in Hb, Ho, Hc. rewrite Hb, Ho, Hc, IH1, IH2. done.
Qed.

(** X1: a segment made from a string keeps the string as its text, and its
    Postscript is [(e) show ] where [e] is a well-formed escape (every
    backslash quotes one character, no unquoted parenthesis) that
    unescapes back to the string. *)
Theorem segment_of_str_escapes (s : string) :
  Segment.text (segment_of_str s) = s /\
  exists e, Segment.ps (segment_of_str s) = ("(" ++ e ++ ") show ")%string /\
    ps_safe e = true /\ ps_unescape e = s.
Proof.
  split; [done|]. exists (ps_escape s). split; [|apply ps_escape_sound].
  unfold segment_of_str. cbn [Segment.ps]. by rewrite segment_of_str_passes.
Qed.


Lemma tokens_text_cons t ts : tokens_text (t :: ts) = (token_text t ++ tokens_text ts)%string.
Proof. reflexivity. Qed.

Lemma segments_text_cons sg segs :
  segments_text (sg :: segs) = (Segment.text sg ++ segments_text segs)%string.
Proof. reflexivity. Qed.

Lemma tokens_text_app a b : tokens_text (a ++ b) = (tokens_text a ++ tokens_text b)%string.
Proof.
  induction a as [|t a IH]; [done|].
  rewrite <- app_comm_cons, !tokens_text_cons, IH. by rewrite string_app_assoc.
Qed.

Lemma segments_text_app a b : segments_text (a ++ b) = (segments_text a ++ segments_text b)%string.
Proof.
  induction a as [|t a IH]; [done|].
  rewrite <- app_comm_cons, !segments_text_cons, IH. by rewrite string_app_assoc.
Qed.

Lemma segment_body_fst ts txt ps :
  fst (segment_body ts txt ps) = (txt ++ tokens_text ts)%string.
Proof.
  revert txt ps; induction ts as [|t ts IH]; intros txt ps.
  - simpl. by rewrite string_app_nil_r.
  - change (tokens_text (t :: ts)) with (token_text t ++ tokens_text ts)%string.
    destruct t; cbn [segment_body token_text]; rewrite IH, ?string_app_assoc; done.
Qed.

Lemma segment_of_tokens_text ts : Segment.text (segment_of_tokens ts) = tokens_text ts.
Proof.
  unfold segment_of_tokens.
  match goal with |- context [segment_body ts ?a ?b] =>
    pose proof (segment_body_fst ts a b) as H; destruct (segment_body ts a b) end.
  simpl in *. exact H.
Qed.

Lemma chain_le_last b t : chain_le (b :: t) -> b <= last_of b t.
Proof.
  revert b; induction t as [|c t IH]; intros b H; simpl; [lia|].
  destruct H as [H1 H2]. specialize (IH c H2). lia.
Qed.

Lemma line_segments_text ts h t acc :
  chain_le (h :: t) -> Forall (fun k => k <= length ts) (h :: t) ->
  exists segs, line_segments ts (windows2 (h :: t)) acc = Some (acc ++ segs) /\
    segments_text segs = tokens_text (take (last_of h t - h) (drop h ts)).
Proof.
  revert h acc; induction t as [|b t IH]; intros h acc Hc HF.
  - exists []. rewrite app_nil_r. split; [done|]. simpl. by rewrite Nat.sub_diag.
  - pose proof (chain_le_last b t (proj2 Hc)) as Hlast.
    simpl in Hc. destruct Hc as [Hhb Hc].
    apply Forall_cons in HF as [Hh HF']. pose proof HF' as HF''.
    apply Forall_cons in HF'' as [Hb _].
    change (windows2 (h :: b :: t)) with ((h, b) :: windows2 (b :: t)).
    remember (windows2 (b :: t)) as w eqn:Hw.
    cbn [line_segments]. rewrite (usize_sub_le _ _ Hhb). simpl.
    assert (Hsplit : take (last_of b t - h) (drop h ts) =
                     take (b - h) (drop h ts) ++ take (last_of b t - b) (drop b ts)).
    { replace (last_of b t - h) with ((b - h) + (last_of b t - b)) by lia.
      rewrite <- take_take_drop, drop_drop. do 2 f_equal. f_equal. lia. }
    destruct (Nat.ltb 0 (b - h)) eqn:E.
    + rewrite (slice_ok _ _ _ Hhb Hb). simpl.
      destruct (IH b (acc ++ [segment_of_tokens (take (b - h) (drop h ts))]) Hc HF')
        as (segs & E1 & E2). rewrite <- Hw in E1.
      exists (segment_of_tokens (take (b - h) (drop h ts)) :: segs).
      rewrite E1, <- app_assoc. split; [done|].
      change (segments_text (segment_of_tokens (take (b - h) (drop h ts)) :: segs))
        with (Segment.text (segment_of_tokens (take (b - h) (drop h ts))) ++ segments_text segs)%string.
      rewrite segment_of_tokens_text, E2, Hsplit, tokens_text_app. done.
    + apply Nat.ltb_ge in E. assert (b = h) by lia. subst b.
      destruct (IH h acc Hc HF') as (segs & E1 & E2). rewrite <- Hw in E1.
      exists segs. split; [done|]. exact E2.
Qed.

Lemma line_scan_note_refs ts i dpy nrs sc :
  fst (line_scan ts i dpy nrs sc) = nrs ++ note_texts ts.
Proof.
  revert i dpy nrs sc; induction ts as [|t ts IH]; intros i dpy nrs sc.
  - simpl. by rewrite app_nil_r.
  - destruct t; cbn [line_scan]; try destruct (negb _); rewrite IH; try done;
      unfold note_texts; simpl; by rewrite <- app_assoc.
Qed.

(** X2: converting any token list to a line succeeds; the line starts at
    column 0, the concatenated texts of its segments are the concatenated
    texts of the tokens, and its footnote references are the texts of the
    [NoteRef] tokens, in order. *)
Theorem line_of_tokens_text (ts : list TokenType) :
  exists l, line_of_tokens ts = Some l /\ Line.column l = 0 /\
    line_text l = tokens_text ts /\ Line.note_refs l = note_texts ts.
Proof.
  unfold line_of_tokens.
  set (d := match ts with t :: _ => display_flags t | [] => 0%Z end).
  pose proof (line_scan_note_refs ts 0 d [] [0]) as Hn.
  destruct (line_scan_sorted ts 0 d [] [0]) as (Hc & HF & rest & Hr);
    [done | constructor; [lia | constructor] |].
  destruct (line_scan ts 0 d [] [0]) as [nrs sc] eqn:E. simpl in *. subst sc nrs.
  assert (Hc' : chain_le (0 :: rest ++ [length ts]))
    by (apply (chain_le_snoc ([0] ++ rest)); [done|]; eapply Forall_impl; [exact HF|]; simpl; lia).
  assert (HF' : Forall (fun k => k <= length ts) (0 :: rest ++ [length ts])).
  { apply (Forall_app _ ([0] ++ rest) [length ts]). split; [|constructor; [lia|constructor]].
    eapply Forall_impl; [exact HF|]; simpl; lia. }
  destruct (line_segments_text ts 0 (rest ++ [length ts]) [] Hc' HF') as (segs & E1 & E2).
  change ((0 :: rest) ++ [length ts]) with (0 :: rest ++ [length ts]). rewrite E1.
  simpl. eexists; split; [reflexivity|]. split; [done|]. split; [|done].
  unfold line_text. cbn [Line.segments]. fold (segments_text segs). rewrite E2.
  rewrite last_of_snoc, drop_0, Nat.sub_0_r, take_ge; done.
Qed.

(** ** Line breaking *)

Lemma next_word_fits_loop_mono rest L L' u u' :
  L <= L' -> u' <= u -> next_word_fits_loop rest L u = true -> next_word_fits_loop rest L' u' = true.
Proof.
  revert u u'; induction rest as [|t rest IH]; intros u u' HL Hu H; simpl in *.
  - apply Nat.leb_le in H. apply Nat.leb_le. lia.
  - destruct (is_mlb t); [apply Nat.leb_le in H; apply Nat.leb_le; lia|].
    destruct (is_dlb t); [destruct (is_dob t); apply Nat.leb_le in H; apply Nat.leb_le; lia|].
    apply (IH (u + token_length t)); [done|lia|done].
Qed.

(** X3: [next_word_fits] is monotone: if the next word fits at position [x]
    on a line of length [L], it also fits at any position [x' <= x] on a
    line of any length [L' >= L]. *)
Theorem next_word_fits_monotone (tokens : list TokenType) (L L' i x x' : nat) :
  L <= L' -> x' <= x -> next_word_fits tokens L i x = Some true ->
  next_word_fits tokens L' i x' = Some true.
Proof.
  unfold next_word_fits. intros HL Hx H.
  destruct (tokens !! i) as [t|]; [|discriminate]. cbn [mbind option_bind] in *.
  injection H as H. f_equal. revert H. apply next_word_fits_loop_mono; lia.
Qed.

Lemma next_word_fits_loop_width rest L u :
  u + width rest <= L -> next_word_fits_loop rest L u = true.
Proof.
  revert u; induction rest as [|t rest IH]; intros u H; simpl.
  - apply Nat.leb_le. rewrite width_nil in H. lia.
  - rewrite width_cons in H.
    destruct (is_mlb t); [apply Nat.leb_le; lia|].
    destruct (is_dlb t); [destruct (is_dob t); apply Nat.leb_le; lia|].
    apply IH. lia.
Qed.

Lemma width_take_drop ts i : width ts = W ts i + width (drop i ts).
Proof. unfold W. rewrite <- width_app, take_drop. done. Qed.

Lemma fill_loop_no_break tokens L rest i splits :
  Forall (fun t => is_mlb t = false) tokens -> width tokens <= L ->
  rest = drop i tokens ->
  fill_loop tokens L rest i (W tokens i) splits = Some splits.
Proof.
  intros Hm HL. revert i; induction rest as [|t rest IH]; intros i Hr; [done|].
  symmetry in Hr. destruct (drop_cons_lookup _ _ _ _ Hr) as [Hi Hd].
  assert (Ht : is_mlb t = false) by (rewrite Forall_lookup in Hm; exact (Hm _ _ Hi)).
  cbn [fill_loop]. rewrite Ht. rewrite <- (W_S _ _ _ Hi).
  destruct (is_dlb t); [|by apply IH].
  unfold next_word_fits. rewrite Hi. cbn [mbind option_bind].
  rewrite next_word_fits_loop_width.
  - simpl. by apply IH.
  - rewrite (width_take_drop tokens (S i)) in HL. rewrite (W_S _ _ _ Hi) in HL.
    replace (i + 1) with (S i) by lia. lia.
Qed.

(** X4: a non-empty token list without mandatory line breaks whose width
    is within the line length is filled into exactly one line, the line
    made of all the tokens. *)
Theorem linebreak_fill_one_line (tokens : list TokenType) (line_length : nat) :
  tokens <> [] -> Forall (fun t => is_mlb t = false) tokens -> width tokens <= line_length ->
  exists l, line_of_tokens tokens = Some l /\ linebreak_fill tokens line_length = Some [l].
Proof.
  intros Hne Hm HL. unfold linebreak_fill.
  pose proof (fill_loop_no_break tokens line_length tokens 0 [(0, false)] Hm HL eq_refl) as E.
  rewrite W_0 in E. rewrite E.
  cbn [mbind option_bind]. change (windows2 ([(0, false)] ++ [(length tokens, false)]))
    with [((0, false), (length tokens, false))].
  cbn [split_lines fst snd mbind option_bind]. rewrite usize_sub_le by lia. cbn [mbind option_bind].
  assert (Hn : 0 < length tokens) by (destruct tokens; [done | simpl; lia]).
  destruct (Nat.ltb_spec 0 (length tokens - 0)) as [_|]; [|lia].
  rewrite slice_ok by lia. cbn [mbind option_bind]. rewrite drop_0, Nat.sub_0_r, take_ge by lia.
  destruct (line_of_tokens_length tokens) as (l & El & _). rewrite El. by exists l.
Qed.

Lemma hang_lines_indent tokens indent ws acc out :
  acc <> [] -> hang_lines tokens indent ws acc = Some out ->
  exists new, out = acc ++ new /\
    Forall (fun l => exists segs, Line.segments l = segment_of_str indent :: segs) new.
Proof.
  revert acc; induction ws as [|[s0 s1] ws IH]; intros acc Hne H; simpl in H.
  - injection H as <-. exists []. by rewrite app_nil_r.
  - bind_some H. bind_some H. destruct (Nat.ltb 0 _); [|by apply IH].
    bind_some H. bind_some H.
    destruct acc as [|a acc']; [done|].
    destruct (IH ((a :: acc') ++ [indent_line indent t]) ltac:(by destruct acc') H) as (new & -> & Hf).
    exists (indent_line indent t :: new). rewrite <- app_assoc. split; [done|].
    constructor; [|done]. by eexists.
Qed.

Lemma hang_lines_first tokens indent ws out :
  hang_lines tokens indent ws [] = Some out ->
  Forall (fun l => exists segs, Line.segments l = segment_of_str indent :: segs) (tail out).
Proof.
  induction ws as [|[s0 s1] ws IH]; intros H; simpl in H.
  - by injection H as <-.
  - bind_some H. bind_some H. destruct (Nat.ltb 0 _); [|by apply IH].
    bind_some H. bind_some H.
    apply hang_lines_indent in H as (new & -> & Hf); [exact Hf | simpl; done].
Qed.

(** X5: every line that [linebreak_hang] produces after the first starts
    with the indentation segment of [INDENT] spaces. *)
Theorem linebreak_hang_indents_rest (tokens : list TokenType) (first_line_length : nat)
    (lines : list Line) :
  linebreak_hang tokens first_line_length = Some lines ->
  Forall (fun l => exists segs, Line.segments l = segment_of_str (spaces INDENT) :: segs) (tail lines).
Proof.
  unfold linebreak_hang. intros H. bind_some H. exact (hang_lines_first _ _ _ _ H).
Qed.

(** ** Counting footnote rows *)

Lemma count_lines_loop_snoc bs b i n lpa :
  count_lines_loop (bs ++ [b]) i n lpa =
  r ← count_lines_loop bs i n lpa;
  c ← Block.count_lines b;
  let lp := match last bs with Some a => Block.padding_after a | None => lpa end in
  Some ((if Nat.ltb 0 (i + length bs) && Z.leb 0 (Block.padding_before b)
         then r + Nat.max (Z.to_nat (Block.padding_before b)) lp else r) + c).
Proof.
  revert i n lpa; induction bs as [|a bs IH]; intros i n lpa.
  - simpl. rewrite Nat.add_0_r. destruct (Block.count_lines b); done.
  - rewrite <- app_comm_cons. cbn [count_lines_loop].
    destruct (Block.count_lines a) as [ca|]; [|done]. cbn [mbind option_bind].
    rewrite IH. rewrite last_cons. cbn [length].
    replace (S i + length bs) with (i + S (length bs)) by lia.
    destruct (count_lines_loop bs _ _ _); [|done]. cbn [mbind option_bind].
    destruct (last bs); done.
Qed.

(** X6: counting the lines of a block list extended by one block adds that
    block's line count, plus the padding between the two blocks (the
    larger of the new block's [padding_before] and the previous block's
    [padding_after]) when the new block is not first and its
    [padding_before] is not negative. *)
Theorem count_lines_snoc (blocks : BlockList) (b : Block) :
  count_lines (blocks ++ [b]) =
  n ← count_lines blocks;
  m ← Block.count_lines b;
  Some (match last blocks with
        | Some a => if Z.leb 0 (Block.padding_before b)
                    then n + Nat.max (Z.to_nat (Block.padding_before b)) (Block.padding_after a)
                    else n
        | None => n
        end + m).
Proof.
  unfold count_lines. rewrite count_lines_loop_snoc.
  destruct (count_lines_loop blocks 0 0 0); [|done]. cbn [mbind option_bind].
  destruct (Block.count_lines b); [|done]. cbn [mbind option_bind].
  destruct blocks as [|a bs] eqn:Eb; [done|].
  destruct (last (a :: bs)) eqn:El; [|by apply last_None in El].
  simpl. done.
Qed.

(** X7: the line count of a block list is at least the total number of
    lines of its blocks. *)
Theorem count_lines_covers_lines (blocks : BlockList) (n : nat) :
  count_lines blocks = Some n -> length (concat (map Block.lines blocks)) <= n.
Proof. intros H. pose proof (count_lines_loop_ge _ _ _ _ _ H). lia. Qed.

(** ** How the page list grows *)

Lemma page_ext_refl p : page_ext p p.
Proof. split; [done|]. split; [done|]. split; reflexivity. Qed.

Lemma page_ext_trans p q r : page_ext p q -> page_ext q r -> page_ext p r.
Proof.
  intros (A1 & A2 & A3 & A4) (B1 & B2 & B3 & B4).
  split; [congruence|]. split; [congruence|].
  split; [by trans (Page.lines q) | by trans (Page.footer q)].
Qed.

Lemma page_numbers_app n a b :
  page_numbers n (a + b) = page_numbers n a ++ page_numbers (page_no_after n a) b.
Proof. revert n; induction a as [|a IH]; intros n; simpl; [done | by rewrite IH]. Qed.

Lemma page_no_after_add n a b : page_no_after n (a + b) = page_no_after (page_no_after n a) b.
Proof. revert n; induction a as [|a IH]; intros n; simpl; [done | by rewrite IH]. Qed.

Lemma grows_same c c' :
  pages c' = pages c -> next_page_no c' = next_page_no c -> grows c c'.
Proof.
  intros Hp Hn ps p H. exists p, []. rewrite Hp, H.
  split; [done|]. split; [apply page_ext_refl|]. split; [done|]. split; [done|].
  rewrite Hn. done.
Qed.

Lemma grows_refl c : grows c c.
Proof. by apply grows_same. Qed.

Lemma grows_trans a b c : grows a b -> grows b c -> grows a c.
Proof.
  intros Hab Hbc ps p Ha.
  destruct (Hab ps p Ha) as (p1 & r1 & Hb & He1 & Hn1 & Hh1 & Hx1).
  destruct r1 as [|q r0 _] using rev_ind.
  - destruct (Hbc ps p1 Hb) as (p2 & r2 & Hc & He2 & Hn2 & Hh2 & Hx2).
    exists p2, r2. split; [done|]. split; [exact (page_ext_trans _ _ _ He1 He2)|].
    rewrite Hx1 in Hn2, Hx2. simpl in Hn2, Hx2.
    split; [done|]. split; [done|]. done.
  - assert (Hb' : pages b = (ps ++ p1 :: r0) ++ [q]) by (rewrite Hb, <- app_assoc; done).
    destruct (Hbc _ q Hb') as (q' & r2 & Hc & (Hq1 & Hq2 & _) & Hn2 & Hh2 & Hx2).
    exists p1, (r0 ++ q' :: r2). split; [rewrite Hc, <- app_assoc; done|].
    split; [done|].
    rewrite length_app in Hn1, Hx1. simpl in Hn1, Hx1.
    rewrite map_app in Hn1 |- *. rewrite page_numbers_app in Hn1.
    rewrite page_no_after_add in Hx1. simpl in Hx1.
    apply Forall_app in Hh1 as [Hh0 Hhq]. apply Forall_cons in Hhq as [Hhq _].
    split.
    + rewrite length_app. cbn [length map].
      replace (length r0 + S (length r2)) with (length r0 + (1 + length r2)) by lia.
      rewrite page_numbers_app. simpl in Hn1 |- *.
      apply app_inj_tail in Hn1 as [Hn0 Hnq]. rewrite Hn0, Hq1, Hnq, Hn2, Hx1. done.
    + split.
      * apply Forall_app. split; [done|]. constructor; [congruence|done].
      * rewrite Hx2, Hx1, length_app.
        replace (length r0 + S (length r2)) with (length r0 + 1 + length r2) by lia.
        rewrite !page_no_after_add. done.
Qed.

Lemma grows_update f c c' :
  (forall p, page_ext p (f p)) -> update_cur_page f c = Some c' -> grows c c'.
Proof.
  intros Hf (ps0 & p0 & Hp0 & ->)%update_cur_page_inv ps p Hp.
  rewrite Hp0 in Hp. apply app_inj_tail in Hp as [-> ->].
  exists (f p), []. split; [done|]. split; [done|]. split; [done|]. split; [done|].
  done.
Qed.

Lemma grows_push_line l c c' : push_line l c = Some c' -> grows c c'.
Proof.
  apply grows_update. intros p. split; [done|]. split; [done|].
  split; [by exists [l] | reflexivity].
Qed.

Lemma grows_push_footer l c c' : push_footer l c = Some c' -> grows c c'.
Proof.
  apply grows_update. intros p. split; [done|]. split; [done|].
  split; [reflexivity | by exists [l]].
Qed.

Lemma grows_start c : grows c (start_a_new_page c).
Proof.
  intros ps p Hp. exists p, [Page.mk (next_page_no c) (TOP_LINE - BOTTOM_LINE + 1) [] []].
  split; [simpl; rewrite Hp, <- app_assoc; done|].
  split; [apply page_ext_refl|]. split; [done|]. split; [by repeat constructor|].
  done.
Qed.

Lemma grows_push_blank_rows n c c' : push_blank_rows n c = Some c' -> grows c c'.
Proof.
  revert c; induction n as [|n IH]; intros c H; simpl in H.
  - injection H as <-. apply grows_refl.
  - bind_some H. exact (grows_trans _ _ _ (grows_push_line _ _ _ E) (IH _ H)).
Qed.

Lemma grows_compose_line c sp ph i line c' : compose_line c sp ph i line = Some c' -> grows c c'.
Proof.
  intros H.
  destruct (compose_line_shape grows grows_refl grows_trans grows_push_footer
              ltac:(intros; by apply grows_same) grows_start _ _ _ _ _ _ H)
    as (c2 & c3 & H1 & H2 & H3).
  apply (grows_trans _ _ _ H1). apply (grows_trans _ _ _ (grows_push_line _ _ _ H2)).
  destruct H3 as [-> | H3]; [apply grows_refl | exact (grows_push_line _ _ _ H3)].
Qed.

Lemma grows_compose_lines c sp ph i ls c' : compose_lines c sp ph i ls = Some c' -> grows c c'.
Proof.
  revert c i; induction ls as [|l ls IH]; intros c i H; simpl in H.
  - injection H as <-. apply grows_refl.
  - bind_some H. exact (grows_trans _ _ _ (grows_compose_line _ _ _ _ _ _ E) (IH _ _ H)).
Qed.

Lemma grows_compose_block c b c' : compose_block c b = Some c' -> grows c c'.
Proof.
  unfold compose_block. intros H.
  apply (grows_trans _ _ _ ltac:(by apply grows_same)). exact (grows_compose_lines _ _ _ _ _ _ H).
Qed.

Lemma grows_compose c b c' : compose c b = Some c' -> grows c c'.
Proof.
  unfold compose. intros H.
  destruct (Z.ltb _ 0); simpl in H; bind_some H.
  - apply (grows_trans _ (start_a_new_page c)); [apply grows_start|].
    apply (grows_trans _ _ _ ltac:(by apply grows_same)).
    apply (grows_trans _ _ _ ltac:(by apply grows_same)).
    exact (grows_trans _ _ _ (grows_push_blank_rows _ _ _ E) (grows_compose_block _ _ _ H)).
  - apply (grows_trans _ _ _ ltac:(by apply grows_same)).
    exact (grows_trans _ _ _ (grows_push_blank_rows _ _ _ E) (grows_compose_block _ _ _ H)).
Qed.

Lemma grows_run_loop c toc blocks c' toc' :
  run_loop c toc blocks = Some (c', toc') -> grows c c'.
Proof.
  revert c toc; induction blocks as [|b bs IH]; intros c toc H; simpl in H.
  - injection H as <- <-. apply grows_refl.
  - destruct (Block.tag b) as [[| |]|].
    + exact (grows_trans _ _ _ ltac:(by apply grows_same) (IH _ _ H)).
    + bind_some H. exact (grows_trans _ _ _ (grows_compose _ _ _ E) (IH _ _ H)).
    + bind_some H. exact (IH _ _ H).
    + bind_some H. exact (grows_trans _ _ _ (grows_compose _ _ _ E) (IH _ _ H)).
Qed.

Lemma keeps_of_grows c c' : grows c c' -> keeps_pages c c'.
Proof. intros H ps p Hp. destruct (H ps p Hp) as (p' & rest & A & B & _). by exists p', rest. Qed.

Lemma keeps_refl c : keeps_pages c c.
Proof. apply keeps_of_grows, grows_refl. Qed.

Lemma keeps_trans a b c : keeps_pages a b -> keeps_pages b c -> keeps_pages a c.
Proof.
  intros Hab Hbc ps p Ha.
  destruct (Hab ps p Ha) as (p1 & r1 & Hb & He1).
  destruct r1 as [|q r0 _] using rev_ind.
  - destruct (Hbc ps p1 Hb) as (p2 & r2 & Hc & He2).
    exists p2, r2. split; [done|]. exact (page_ext_trans _ _ _ He1 He2).
  - assert (Hb' : pages b = (ps ++ p1 :: r0) ++ [q]) by (rewrite Hb, <- app_assoc; done).
    destruct (Hbc _ q Hb') as (q' & r2 & Hc & _).
    exists p1, (r0 ++ q' :: r2). split; [rewrite Hc, <- app_assoc; done | done].
Qed.

Lemma keeps_same c c' : pages c' = pages c -> keeps_pages c c'.
Proof. intros Hp ps p H. exists p, []. rewrite Hp, H. split; [done | apply page_ext_refl]. Qed.

Lemma keeps_empty c c' : pages c = [] -> keeps_pages c c'.
Proof. intros H ps p Hp. rewrite H in Hp. by destruct ps. Qed.

Lemma keeps_toc_entries c blocks c' : toc_entries c blocks = Some c' -> keeps_pages c c'.
Proof.
  revert c; induction blocks as [|[pn b] bs IH]; intros c H; simpl in H.
  - injection H as <-. apply keeps_refl.
  - destruct (Block.lines b) as [|line rest]; [exact (IH _ H)|].
    bind_some H. bind_some H. destruct p as [r bp]. bind_some H. bind_some H.
    bind_some H. apply (keeps_trans _ c0); [|exact (IH _ H)].
    apply keeps_of_grows.
    destruct (Z.ltb _ _).
    + apply (grows_trans _ (start_a_new_page c)); [apply grows_start|].
      apply (grows_trans _ _ _ ltac:(by apply grows_same)). exact (grows_compose _ _ _ E3).
    + exact (grows_compose _ _ _ E3).
Qed.

Lemma keeps_compose_toc c blocks c' : compose_toc c blocks = Some c' -> keeps_pages c c'.
Proof.
  unfold compose_toc. intros H. bind_some H. bind_some H.
  apply (keeps_trans _ (set_next_page_no c (-1))); [by apply keeps_same|].
  apply (keeps_trans _ _ _ (keeps_of_grows _ _ (grows_compose _ _ _ E0))).
  exact (keeps_toc_entries _ _ _ H).
Qed.

(** X8: running the compositor never removes or renumbers pages: the pages
    before the current one are kept unchanged, and the current page is
    only extended (same number and height, its body lines and footer lines
    keep their prefix). *)
Theorem run_keeps_finished_pages (c c' : Compositor) (blocks : BlockList) (ps : list Page) (p : Page) :
  pages c = ps ++ [p] -> run c blocks = Some c' ->
  exists p' rest, pages c' = ps ++ p' :: rest /\ page_ext p p'.
Proof.
  intros Hp H. enough (Hk : keeps_pages c c') by exact (Hk ps p Hp).
  unfold run in H. rewrite Hp in H.
  assert (Hne : is_empty (ps ++ [p]) = false) by (destruct ps; done).
  rewrite Hne in H. bind_some H. destruct p0 as [c1 toc].
  apply (keeps_trans _ c1); [exact (keeps_of_grows _ _ (grows_run_loop _ _ _ _ _ E))|].
  destruct (is_empty toc); [injection H as <-; apply keeps_refl | exact (keeps_compose_toc _ _ _ H)].
Qed.

(** X9: when no block is a ToC block, running a fresh compositor numbers its
    pages consecutively in [i32] arithmetic: the first page is numbered -1
    with a structure page and [first_page] otherwise, the following pages
    count up from [first_page] (from [first_page + 1] without a structure
    page), each number the [i32] successor of the one before, so that the
    numbering wraps from [i32::MAX] to [i32::MIN]; every page has the full
    page height. *)
Theorem run_numbers_pages (first_page : Z) (hs : bool) (blocks : BlockList) (c' : Compositor) :
  Forall (fun b => Block.tag b <> Some ToC) blocks ->
  run (new first_page hs) blocks = Some c' ->
  exists p0 rest, pages c' = p0 :: rest /\
    Page.number p0 = (if hs then (-1)%Z else first_page) /\
    map Page.number rest = page_numbers (if hs then first_page else i32_wrap (first_page + 1)) (length rest) /\
    Forall (fun q => Page.height q = TOP_LINE - BOTTOM_LINE + 1) (p0 :: rest).
Proof.
  intros HT H. unfold run in H. cbn [pages new is_empty has_structure] in H.
  set (c0 := if hs then _ else _) in H.
  assert (H0 : pages c0 = [] ++ [Page.mk (if hs then (-1)%Z else first_page)
                                         (TOP_LINE - BOTTOM_LINE + 1) [] []] /\
               next_page_no c0 = (if hs then first_page else i32_wrap (first_page + 1)))
    by (subst c0; destruct hs; done).
  destruct H0 as [Hp0 Hn0].
  bind_some H. destruct p as [c1 toc].
  destruct (run_loop_content _ _ _ _ _ HT E) as [-> _]. cbn [is_empty] in H. injection H as <-.
  destruct (grows_run_loop _ _ _ _ _ E [] _ Hp0) as (p' & rest & Hp & (Hn & Hh & _) & Hr & Hhr & _).
  exists p', rest. split; [done|]. split; [done|]. split; [by rewrite Hr, Hn0|].
  constructor; [by rewrite Hh|done].
Qed.

(** X10: composing a block with negative [padding_before] keeps all
    existing pages and appends a new page, numbered [next_page_no], of the
    full height, whose body starts with [- padding_before - 1] blank rows. *)
Theorem compose_negative_padding_new_page (c c' : Compositor) (b : Block) :
  (Block.padding_before b < 0)%Z -> compose c b = Some c' ->
  exists p' rest, pages c' = pages c ++ p' :: rest /\
    Page.number p' = next_page_no c /\
    Page.height p' = TOP_LINE - BOTTOM_LINE + 1 /\
    prefix (repeat None (Z.to_nat (- Block.padding_before b - 1))) (Page.lines p').
Proof.
  intros Hneg H. unfold compose in H.
  destruct (Z.ltb_spec (Block.padding_before b) 0) as [_|]; [|lia]. cbn in H.
  set (k := Z.to_nat (- Block.padding_before b - 1)) in H.
  set (p0 := Page.mk (next_page_no c) (TOP_LINE - BOTTOM_LINE + 1) [] []).
  rewrite Nat.max_0_r in H.
  rewrite (push_blank_rows_snoc k (set_last_padding_after (set_last_padding_after (start_a_new_page c) 0)
    (Block.padding_after b)) (pages c) p0 eq_refl) in H. cbn [mbind option_bind] in H.
  destruct (grows_compose_block _ _ _ H (pages c) (add_rows p0 (repeat None k) []) eq_refl)
    as (p' & rest & Hp & (Hn & Hh & Hl & _) & _).
  exists p', rest. split; [done|]. split; [done|]. split; [done|]. exact Hl.
Qed.

(** ** The pending footnote table *)

Lemma push_line_footnotes l c c' : push_line l c = Some c' -> footnotes c' = footnotes c.
Proof. intros (ps & p & _ & ->)%update_cur_page_inv. done. Qed.

Lemma compose_line_footnotes c sp ph i line c' :
  compose_line c sp ph i line = Some c' ->
  (forall l, l ∈ Line.note_refs line -> footnotes c' !! l = None) /\
  (forall l, l ∉ Line.note_refs line -> footnotes c' !! l = footnotes c !! l).
Proof.
  unfold compose_line. intros H. bind_some H.
  assert (Hpost : footnotes c' = footnotes c0).
  { bind_some H. bind_some H.
    assert (H1 : footnotes c1 = footnotes c0)
      by (rewrite (push_line_footnotes _ _ _ E1); destruct (Z.ltb _ 1); done).
    destruct (_ && _).
    - bind_some H. bind_some H. destruct (Nat.ltb 1 _).
      + rewrite (push_line_footnotes _ _ _ H). exact H1.
      + injection H as <-. exact H1.
    - injection H as <-. exact H1. }
  rewrite Hpost. clear H Hpost.
  destruct (Line.note_refs line) as [|r rs] eqn:Er.
  - cbn in E. injection E as <-. split; [intros l Hl; by apply elem_of_nil in Hl | done].
  - cbn [is_empty negb] in E. bind_some E. bind_some E.
    destruct (place_footnotes_consumed _ _ _ E) as [A B]. split; [exact A|].
    intros l Hl. rewrite (B l Hl). by destruct (Z.ltb _ 1).
Qed.

Lemma compose_lines_footnotes c sp ph i ls c' :
  compose_lines c sp ph i ls = Some c' ->
  (forall l, l ∈ concat (map Line.note_refs ls) -> footnotes c' !! l = None) /\
  (forall l, l ∉ concat (map Line.note_refs ls) -> footnotes c' !! l = footnotes c !! l).
Proof.
  revert c i; induction ls as [|line ls IH]; intros c i H; simpl in H.
  - injection H as <-. split; [intros l Hl; by apply elem_of_nil in Hl | done].
  - bind_some H. destruct (compose_line_footnotes _ _ _ _ _ _ E) as [A1 B1].
    destruct (IH _ _ H) as [A2 B2]. cbn [map concat]. split.
    + intros l Hl. destruct (decide (l ∈ concat (map Line.note_refs ls))) as [Hin|Hout];
        [exact (A2 l Hin)|].
      rewrite (B2 l Hout). apply A1. apply elem_of_app in Hl as [Hl|Hl]; [done|contradiction].
    + intros l Hl. rewrite elem_of_app in Hl.
      rewrite (B2 l ltac:(tauto)), (B1 l ltac:(tauto)). done.
Qed.

(** X11: after composing a block, a footnote label referenced by one of
    the block's lines is no longer in the footnote table, and every other
    label maps to what the table extended with the block's footnote
    definitions maps it to. *)
Theorem compose_block_footnote_table (c c' : Compositor) (b : Block) :
  compose_block c b = Some c' ->
  forall label, footnotes c' !! label =
    if decide (label ∈ concat (map Line.note_refs (Block.lines b))) then None
    else add_footnotes (footnotes c) (Block.footnotes b) !! label.
Proof.
  unfold compose_block. intros H label.
  destruct (compose_lines_footnotes _ _ _ _ _ _ H) as [A B].
  destruct (decide _) as [Hin|Hout]; [exact (A _ Hin) | exact (B _ Hout)].
Qed.

(** ** Table of contents entries *)

Lemma usize_sub_inv a b r : usize_sub a b = Some r -> b <= a /\ r = a - b.
Proof. unfold usize_sub. destruct (Nat.leb_spec b a); [intros [= <-]; lia | discriminate]. Qed.

Lemma repeat_str_length s k : String.length (repeat_str s k) = k * String.length s.
Proof. induction k as [|k IH]; simpl; [done|]. rewrite string_length_app, IH. lia. Qed.

Lemma toc_entries_content c blocks c' :
  toc_entries c blocks = Some c' -> exists more, content c' = content c ++ more.
Proof.
  revert c; induction blocks as [|[pn b] bs IH]; intros c H; simpl in H.
  - injection H as <-. exists []. by rewrite app_nil_r.
  - destruct (Block.lines b) as [|line rest]; [exact (IH _ H)|].
    bind_some H. bind_some H. destruct p as [r bp]. bind_some H. bind_some H. bind_some H.
    destruct (IH _ H) as (more & ->). rewrite (compose_content _ _ _ E3).
    assert (Hc : forall X : bool,
               content (if X then set_last_padding_after (start_a_new_page c) 0 else c) = content c)
      by (intros []; [apply start_a_new_page_content | done]).
    rewrite Hc. eexists. by rewrite <- !app_assoc.
Qed.

(** X12: a ToC entry's first line is extended by one segment: a leader
    followed by the page number, such that the line and the segment
    together span exactly the text width [RIGHT_MARGIN - LEFT_MARGIN + 1];
    the entry's other lines follow unchanged. *)
Theorem toc_entry_dot_leader (c c' : Compositor) (page_no : Z) (b : Block) (blocks : list (Z * Block))
    (line : Line) (rest : list Line) :
  Block.lines b = line :: rest ->
  toc_entries c ((page_no, b) :: blocks) = Some c' ->
  exists leader more,
    content c' = content c ++
      Line.mk (Line.column line)
        (Line.segments line ++ [segment_of_str (leader ++ string_of_Z page_no)]) (Line.note_refs line)
      :: rest ++ more /\
    Line.length line + String.length (leader ++ string_of_Z page_no) = RIGHT_MARGIN - LEFT_MARGIN + 1.
Proof.
  intros Hl H. cbn [toc_entries] in H. rewrite Hl in H.
  bind_some H. bind_some H. destruct p as [r bp]. bind_some H. bind_some H. bind_some H.
  destruct (toc_entries_content _ _ _ H) as (more & Hm).
  set (nl := Line.length line) in *. set (ps := string_of_Z page_no) in *.
  set (after := if Nat.eqb (String.length ps mod 2) 0 then " "%string else EmptyString) in *.
  exists (bp ++ repeat_str ". " (r / 2) ++ after)%string, more.
  split.
  - rewrite Hm, (compose_content _ _ _ E3).
    assert (Hc : forall X : bool,
               content (if X then set_last_padding_after (start_a_new_page c) 0 else c) = content c)
      by (intros []; [apply start_a_new_page_content | done]).
    rewrite Hc, <- !app_assoc, !string_app_assoc. done.
  - bind_some E. apply usize_sub_inv in E4 as [Ha ->]. apply usize_sub_inv in E as [Hp ->].
    rewrite !string_length_app, repeat_str_length.
    subst after. unfold RIGHT_MARGIN, LEFT_MARGIN in *.
    (destruct (Nat.eqb_spec (nl mod 2) 1); bind_some E0; injection E0 as <- <-;
      lazymatch goal with Hs : usize_sub _ _ = Some _ |- _ => apply usize_sub_inv in Hs as [? ->] end;
      cbn [String.length];
      destruct (Nat.eqb_spec (String.length ps mod 2) 0); cbn [String.length];
      match goal with |- context [?r `div` 2] =>
        pose proof (Nat.div_mod_eq r 2); pose proof (Nat.mod_upper_bound r 2);
        pose proof (Nat.div_mod_eq nl 2); pose proof (Nat.mod_upper_bound nl 2);
        pose proof (Nat.div_mod_eq (String.length ps) 2);
        pose proof (Nat.mod_upper_bound (String.length ps) 2) end; lia).
Qed.

Lemma next_word_fits_monotone_witness :
  10 <= 12 /\ 0 <= 2 /\
  next_word_fits [word "foo"; space 1; word "bar"] 10 1 2 = Some true /\
  next_word_fits [word "foo"; space 1; word "bar"] 12 1 0 = Some true.
Proof.
  assert (H : next_word_fits [word "foo"; space 1; word "bar"] 10 1 2 = Some true) by reflexivity.
  split; [lia|]. split; [lia|]. split; [exact H|].
  exact (next_word_fits_monotone [word "foo"; space 1; word "bar"] 10 12 1 2 0
           ltac:(lia) ltac:(lia) H).
Defined.

Lemma linebreak_fill_one_line_witness :
  [word "foo"; space 1; word "bar"] <> [] /\
  Forall (fun t => is_mlb t = false) [word "foo"; space 1; word "bar"] /\
  width [word "foo"; space 1; word "bar"] <= 10 /\
  exists l, line_of_tokens [word "foo"; space 1; word "bar"] = Some l /\
    linebreak_fill [word "foo"; space 1; word "bar"] 10 = Some [l].
Proof.
  assert (H1 : [word "foo"; space 1; word "bar"] <> []) by discriminate.
  assert (H2 : Forall (fun t => is_mlb t = false) [word "foo"; space 1; word "bar"])
    by (repeat constructor).
  assert (H3 : width [word "foo"; space 1; word "bar"] <= 10) by (vm_compute; lia).
  split; [exact H1|]. split; [exact H2|]. split; [exact H3|].
  exact (linebreak_fill_one_line [word "foo"; space 1; word "bar"] 10 H1 H2 H3).
Defined.

Lemma linebreak_hang_indents_rest_witness :
  exists lines,
    linebreak_hang [word "foo"; space 1; word "bar"; space 1; word "baz"] 3 = Some lines /\
    2 <= length lines /\
    Forall (fun l => exists segs, Line.segments l = segment_of_str (spaces INDENT) :: segs) (tail lines).
Proof.
  eexists. split; [reflexivity|]. split; [vm_compute; lia|].
  apply (linebreak_hang_indents_rest [word "foo"; space 1; word "bar"; space 1; word "baz"] 3).
  reflexivity.
Defined.

Lemma count_lines_covers_lines_witness :
  exists n,
    count_lines [Block.mk [line_of_segment (segment_of_str "a"); line_of_segment (segment_of_str "b")]
                   [] Double 0 1 None;
                 Block.mk [line_of_segment (segment_of_str "c")] [] Single 2 0 None] = Some n /\
    length (concat (map Block.lines
      [Block.mk [line_of_segment (segment_of_str "a"); line_of_segment (segment_of_str "b")]
         [] Double 0 1 None;
       Block.mk [line_of_segment (segment_of_str "c")] [] Single 2 0 None])) <= n.
Proof.
  eexists. split; [reflexivity|]. apply count_lines_covers_lines. reflexivity.
Defined.

Lemma run_keeps_finished_pages_witness :
  exists c',
    pages (start_a_new_page (set_next_page_no (new 1 false) 1)) =
      [] ++ [Page.mk 1 (TOP_LINE - BOTTOM_LINE + 1) [] []] /\
    run (start_a_new_page (set_next_page_no (new 1 false) 1))
      [Block.mk [line_of_segment (segment_of_str "foo")] [] Single 0 0 None] = Some c' /\
    exists p' rest, pages c' = [] ++ p' :: rest /\
      page_ext (Page.mk 1 (TOP_LINE - BOTTOM_LINE + 1) [] []) p'.
Proof.
  assert (H : pages (start_a_new_page (set_next_page_no (new 1 false) 1)) =
                [] ++ [Page.mk 1 (TOP_LINE - BOTTOM_LINE + 1) [] []]) by reflexivity.
  destruct (run (start_a_new_page (set_next_page_no (new 1 false) 1))
              [Block.mk [line_of_segment (segment_of_str "foo")] [] Single 0 0 None]) as [c'|] eqn:E;
    [|vm_compute in E; discriminate].
  exists c'. split; [exact H|]. split; [reflexivity|].
  exact (run_keeps_finished_pages _ _ _ _ _ H E).
Defined.

Lemma run_numbers_pages_witness :
  exists c',
    Forall (fun b => Block.tag b <> Some ToC)
      [Block.mk [line_of_segment (segment_of_str "foo")] [] Single 0 0 None;
       Block.mk [line_of_segment (segment_of_str "bar")] [] Single (-1) 0 None] /\
    run (new 2147483647 false)
      [Block.mk [line_of_segment (segment_of_str "foo")] [] Single 0 0 None;
       Block.mk [line_of_segment (segment_of_str "bar")] [] Single (-1) 0 None] = Some c' /\
    map Page.number (pages c') = [2147483647%Z; (-2147483648)%Z] /\
    exists p0 rest, pages c' = p0 :: rest /\
      Page.number p0 = 2147483647%Z /\
      map Page.number rest = page_numbers (i32_wrap (2147483647 + 1)) (length rest) /\
      Forall (fun q => Page.height q = TOP_LINE - BOTTOM_LINE + 1) (p0 :: rest).
Proof.
  assert (H1 : Forall (fun b => Block.tag b <> Some ToC)
      [Block.mk [line_of_segment (segment_of_str "foo")] [] Single 0 0 None;
       Block.mk [line_of_segment (segment_of_str "bar")] [] Single (-1) 0 None])
    by (repeat constructor; discriminate).
  destruct (run (new 2147483647 false)
      [Block.mk [line_of_segment (segment_of_str "foo")] [] Single 0 0 None;
       Block.mk [line_of_segment (segment_of_str "bar")] [] Single (-1) 0 None]) as [c'|] eqn:E;
    [|vm_compute in E; discriminate].
  exists c'. split; [exact H1|]. split; [reflexivity|].
  split; [revert E; vm_compute; intros E; injection E as <-; reflexivity|].
  exact (run_numbers_pages 2147483647 false _ _ H1 E).
Defined.

Lemma compose_negative_padding_new_page_witness :
  exists c',
    (Block.padding_before (Block.mk [line_of_segment (segment_of_str "foo")] [] Single (-3) 0 None) < 0)%Z /\
    compose (start_a_new_page (set_next_page_no (new 1 false) 1))
      (Block.mk [line_of_segment (segment_of_str "foo")] [] Single (-3) 0 None) = Some c' /\
    exists p' rest, pages c' = pages (start_a_new_page (set_next_page_no (new 1 false) 1)) ++ p' :: rest /\
      Page.number p' = 2%Z /\
      Page.height p' = TOP_LINE - BOTTOM_LINE + 1 /\
      prefix (repeat None 2) (Page.lines p').
Proof.
  assert (H1 : (Block.padding_before
                  (Block.mk [line_of_segment (segment_of_str "foo")] [] Single (-3) 0 None) < 0)%Z)
    by (simpl; lia).
  destruct (compose (start_a_new_page (set_next_page_no (new 1 false) 1))
      (Block.mk [line_of_segment (segment_of_str "foo")] [] Single (-3) 0 None)) as [c'|] eqn:E;
    [|vm_compute in E; discriminate].
  exists c'. split; [exact H1|]. split; [reflexivity|].
  exact (compose_negative_padding_new_page _ _ _ H1 E).
Defined.

Lemma compose_block_footnote_table_witness :
  exists c',
    compose_block (start_a_new_page (set_next_page_no (new 1 false) 1))
      (Block.mk [Line.mk 0 [segment_of_str "foo"] ["x"%string]]
         [("x"%string, [Block.mk [line_of_segment (segment_of_str "note")] [] Single 0 0 None]);
          ("y"%string, [Block.mk [line_of_segment (segment_of_str "other")] [] Single 0 0 None])]
         Single 0 0 None) = Some c' /\
    forall label, footnotes c' !! label =
      if decide (label ∈ ["x"%string]) then None
      else add_footnotes ∅
        [("x"%string, [Block.mk [line_of_segment (segment_of_str "note")] [] Single 0 0 None]);
         ("y"%string, [Block.mk [line_of_segment (segment_of_str "other")] [] Single 0 0 None])] !! label.
Proof.
  destruct (compose_block (start_a_new_page (set_next_page_no (new 1 false) 1))
      (Block.mk [Line.mk 0 [segment_of_str "foo"] ["x"%string]]
         [("x"%string, [Block.mk [line_of_segment (segment_of_str "note")] [] Single 0 0 None]);
          ("y"%string, [Block.mk [line_of_segment (segment_of_str "other")] [] Single 0 0 None])]
         Single 0 0 None)) as [c'|] eqn:E; [|vm_compute in E; discriminate].
  exists c'. split; [reflexivity|].
  exact (compose_block_footnote_table _ _ _ E).
Defined.

Lemma toc_entry_dot_leader_witness :
  exists c',
    Block.lines (Block.mk [line_of_segment (segment_of_str "Intro")] [] Single 0 0 None) =
      [line_of_segment (segment_of_str "Intro")] /\
    toc_entries (start_a_new_page (set_next_page_no (new 1 false) 1))
      [(12%Z, Block.mk [line_of_segment (segment_of_str "Intro")] [] Single 0 0 None)] = Some c' /\
    exists leader more,
      content c' = content (start_a_new_page (set_next_page_no (new 1 false) 1)) ++
        Line.mk 0 ([segment_of_str "Intro"] ++ [segment_of_str (leader ++ string_of_Z 12)]) []
        :: [] ++ more /\
      Line.length (line_of_segment (segment_of_str "Intro")) + String.length (leader ++ string_of_Z 12) =
        RIGHT_MARGIN - LEFT_MARGIN + 1.
Proof.
  assert (H1 : Block.lines (Block.mk [line_of_segment (segment_of_str "Intro")] [] Single 0 0 None) =
                 [line_of_segment (segment_of_str "Intro")]) by reflexivity.
  destruct (toc_entries (start_a_new_page (set_next_page_no (new 1 false) 1))
      [(12%Z, Block.mk [line_of_segment (segment_of_str "Intro")] [] Single 0 0 None)]) as [c'|] eqn:E;
    [|vm_compute in E; discriminate].
  exists c'. split; [exact H1|]. split; [reflexivity|].
  exact (toc_entry_dot_leader _ _ _ _ _ _ _ H1 E).
Defined.

Lemma run_loop_lines c toc blocks c' toc' :
  run_loop c toc blocks = Some (c', toc') ->
  map snd toc' = map snd toc ++ filter (fun b => is_toc b = true) blocks /\
  content c' = content c ++ body_lines (filter (fun b => is_toc b = false) blocks).
Proof.
  revert c toc; induction blocks as [|b bs IH]; intros c toc H; simpl in H.
  - injection H as <- <-. simpl. by rewrite !app_nil_r.
  - rewrite !filter_cons.
    destruct (Block.tag b) as [[| |]|] eqn:Et;
      [assert (Hi : is_toc b = false) by (unfold is_toc; by rewrite Et)
      |assert (Hi : is_toc b = false) by (unfold is_toc; by rewrite Et)
      |assert (Hi : is_toc b = true) by (unfold is_toc; by rewrite Et)
      |assert (Hi : is_toc b = false) by (unfold is_toc; by rewrite Et)];
      rewrite Hi; rewrite ?(decide_True (P := true = true)), ?(decide_False (P := false = true)),
        ?(decide_True (P := false = false)), ?(decide_False (P := true = false)) by done.
    + destruct (IH _ _ H) as [-> ->]. simpl. rewrite Et. done.
    + bind_some H. destruct (IH _ _ H) as [-> ->].
      simpl. rewrite Et. rewrite (compose_content _ _ _ E), <- app_assoc. done.
    + bind_some H. destruct (IH _ _ H) as [-> ->].
      rewrite map_app, <- app_assoc. done.
    + bind_some H. destruct (IH _ _ H) as [-> ->].
      simpl. rewrite Et. rewrite (compose_content _ _ _ E), <- app_assoc. done.
Qed.

Lemma toc_entries_lines c blocks c' :
  toc_entries c blocks = Some c' ->
  exists entries, Forall2 (fun e ls => toc_entry_ok e.1 e.2 ls) blocks entries /\
    content c' = content c ++ concat entries.
Proof.
  revert c; induction blocks as [|[page_no b] bs IH]; intros c H; cbn [toc_entries] in H.
  - injection H as <-. exists []. split; [constructor | by rewrite app_nil_r].
  - destruct (Block.lines b) as [|line rest] eqn:Hl.
    + destruct (IH _ H) as (es & Hf & Hc). exists ([] :: es). split; [|done].
      constructor; [|done]. unfold toc_entry_ok. simpl. by rewrite Hl.
    + bind_some H. bind_some H. destruct p as [r bp]. bind_some H. bind_some H. bind_some H.
      destruct (IH _ H) as (es & Hf & Hc).
      set (nl := Line.length line) in *. set (ps := string_of_Z page_no) in *.
      set (after := if Nat.eqb (String.length ps mod 2) 0 then " "%string else EmptyString) in *.
      eexists (_ :: es). split; [constructor; [|exact Hf]|].
      * unfold toc_entry_ok. cbn [fst snd]. rewrite Hl. fold nl ps. exists bp, (r / 2), after.
        bind_some E. apply usize_sub_inv in E4 as [Ha ->]. apply usize_sub_inv in E as [Hp ->].
        split; [|split; [|split; [reflexivity|]]].
        -- destruct (Nat.eqb_spec (nl mod 2) 1); bind_some E0; injection E0 as <- <-;
             [apply list_elem_of_here | apply list_elem_of_further, list_elem_of_here].
        -- subst after. destruct (Nat.eqb_spec (String.length ps mod 2) 0);
             [apply list_elem_of_further, list_elem_of_here | apply list_elem_of_here].
        -- rewrite !string_length_app, repeat_str_length.
           subst after. unfold RIGHT_MARGIN, LEFT_MARGIN in *.
           (destruct (Nat.eqb_spec (nl mod 2) 1); bind_some E0; injection E0 as <- <-;
             lazymatch goal with Hs : usize_sub _ _ = Some _ |- _ => apply usize_sub_inv in Hs as [? ->] end;
             cbn [String.length];
             destruct (Nat.eqb_spec (String.length ps mod 2) 0); cbn [String.length];
             match goal with |- context [?r `div` 2] =>
               pose proof (Nat.div_mod_eq r 2); pose proof (Nat.mod_upper_bound r 2);
               pose proof (Nat.div_mod_eq nl 2); pose proof (Nat.mod_upper_bound nl 2);
               pose proof (Nat.div_mod_eq (String.length ps) 2);
               pose proof (Nat.mod_upper_bound (String.length ps) 2) end; lia).
      * rewrite Hc, (compose_content _ _ _ E3).
        assert (Hc' : forall X : bool,
                   content (if X then set_last_padding_after (start_a_new_page c) 0 else c) = content c)
          by (intros []; [apply start_a_new_page_content | done]).
        rewrite Hc', <- !app_assoc. done.
Qed.

(** C4 (amended): when [run] returns, the content rows it adds to the
    pages are first the lines of the blocks that are neither contact nor
    ToC blocks, each once, in block order and in line order within each
    block (blocks may be split across pages, but no line is reordered,
    duplicated or dropped); ToC-tagged blocks are not composed in place:
    when there are any, a table of contents follows all other lines, a
    "Table of Contents" header line, then the entry of each ToC block in
    input order, its first line extended by a dot leader and a page
    number to the text width. *)
Theorem run_lines_in_order (c c' : Compositor) (blocks : BlockList) :
  run c blocks = Some c' ->
  exists toc entries,
    map snd toc = filter (fun b => is_toc b = true) blocks /\
    Forall2 (fun e ls => toc_entry_ok e.1 e.2 ls) toc entries /\
    content c' = content c ++ body_lines (filter (fun b => is_toc b = false) blocks) ++
      match toc with
      | [] => []
      | _ :: _ => Line.mk 33 [segment_of_str "Table of Contents"] [] :: concat entries
      end.
Proof.
  intros H. unfold run in H.
  set (c0 := if is_empty (pages c) then _ else c) in H.
  assert (Hc0 : content c0 = content c).
  { subst c0. destruct (is_empty _); [|done]. destruct (has_structure c).
    - change (content (start_a_new_page c) = content c). apply start_a_new_page_content.
    - rewrite start_a_new_page_content. done. }
  bind_some H. destruct p as [c1 toc].
  destruct (run_loop_lines _ _ _ _ _ E) as [Ht Hc1]. simpl in Ht.
  destruct toc as [|e toc'].
  - injection H as <-. exists [], []. split; [done|]. split; [constructor|].
    rewrite Hc1, Hc0, app_nil_r. done.
  - cbn [is_empty] in H. unfold compose_toc in H. bind_some H. vm_compute in E0.
    injection E0 as <-. bind_some H.
    destruct (toc_entries_lines _ _ _ H) as (es & Hf & Hc).
    exists (e :: toc'), es. split; [done|]. split; [done|].
    rewrite Hc, (compose_content _ _ _ E0).
    change (content (set_next_page_no c1 (-1))) with (content c1).
    rewrite Hc1, Hc0, <- !app_assoc. done.
Qed.

Lemma run_lines_in_order_witness :
  exists c',
    run (new 1 false)
      [Block.mk [line_of_segment (segment_of_str "Chapter")] [] Single 0 0 (Some ToC);
       Block.mk [line_of_segment (segment_of_str "foo")] [] Single 0 0 None] = Some c' /\
    exists toc entries,
      map snd toc = filter (fun b => is_toc b = true)
        [Block.mk [line_of_segment (segment_of_str "Chapter")] [] Single 0 0 (Some ToC);
         Block.mk [line_of_segment (segment_of_str "foo")] [] Single 0 0 None] /\
      Forall2 (fun e ls => toc_entry_ok e.1 e.2 ls) toc entries /\
      content c' = content (new 1 false) ++
        body_lines (filter (fun b => is_toc b = false)
          [Block.mk [line_of_segment (segment_of_str "Chapter")] [] Single 0 0 (Some ToC);
           Block.mk [line_of_segment (segment_of_str "foo")] [] Single 0 0 None]) ++
        match toc with
        | [] => []
        | _ :: _ => Line.mk 33 [segment_of_str "Table of Contents"] [] :: concat entries
        end.
Proof.
  destruct (run (new 1 false)
      [Block.mk [line_of_segment (segment_of_str "Chapter")] [] Single 0 0 (Some ToC);
       Block.mk [line_of_segment (segment_of_str "foo")] [] Single 0 0 None]) as [c'|] eqn:E;
    [|vm_compute in E; discriminate].
  exists c'. split; [reflexivity|].
  exact (run_lines_in_order _ _ _ E).
Defined.






Lemma count_lines_loop_none bs i n lpa :
  Exists (fun b => Block.count_lines b = None) bs -> count_lines_loop bs i n lpa = None.
Proof.
  revert i n lpa; induction bs as [|b bs IH]; intros i n lpa Hx; [inversion Hx|].
  simpl. inversion Hx as [? ? Hb|? ? Hbs]; subst.
  - by rewrite Hb.
  - destruct (Block.count_lines b); simpl; [by apply IH | done].
Qed.

(** C7 (the failing input): on a double-spaced block without lines,
    [Block::count_lines] computes [0 * 2 - 1] and underflows, while the
    block renders to no rows: [compose_block] places nothing for it. *)
Theorem count_lines_empty_double_block (c : Compositor) (b : Block) :
  Block.line_spacing b = Double -> Block.lines b = [] ->
  Block.count_lines b = None /\
  length (spaced_rows (Block.line_spacing b) (Block.lines b)) = 0 /\
  exists c', compose_block c b = Some c' /\ pages c' = pages c.
Proof.
  intros Hs Hl. unfold Block.count_lines. rewrite Hs, Hl. split; [done|]. split; [done|].
  unfold compose_block. rewrite Hl. simpl. by eexists.
Qed.

Lemma count_lines_empty_double_block_witness :
  Block.line_spacing (Block.mk [] [] Double 0 0 None) = Double /\
  Block.lines (Block.mk [] [] Double 0 0 None) = [] /\
  Block.count_lines (Block.mk [] [] Double 0 0 None) = None /\
  length (spaced_rows Double []) = 0 /\
  exists c', compose_block (new 1 false) (Block.mk [] [] Double 0 0 None) = Some c' /\
    pages c' = pages (new 1 false).
Proof.
  split; [reflexivity|]. split; [reflexivity|].
  exact (count_lines_empty_double_block (new 1 false) (Block.mk [] [] Double 0 0 None) eq_refl eq_refl).
Defined.

(** C9 (the failing input): [Block::count_lines] fails exactly on the
    double-spaced blocks without lines, and such a block inside a
    footnote makes the composition of a line that references it fail,
    when the footer height is counted. *)
Theorem block_count_lines_fails_on_footnote (b : Block) (c : Compositor) (sp : LineSpacing)
    (page_height i : nat) (line : Line) (label : string) (labels : list string) (fn : BlockList) :
  (Block.count_lines b = None <-> Block.line_spacing b = Double /\ Block.lines b = []) /\
  (Line.note_refs line = label :: labels -> footnotes c !! label = Some fn -> b ∈ fn ->
   Block.count_lines b = None -> compose_line c sp page_height i line = None).
Proof.
  split.
  - unfold Block.count_lines.
    destruct (Block.line_spacing b), (Block.lines b); (split; [intros H | intros [H1 H2]]);
      try discriminate; try done; unfold usize_sub in *; simpl in *; discriminate.
  - intros Hr Hf Hb Hn.
    assert (Hc : count_lines fn = None)
      by (apply count_lines_loop_none, Exists_exists; by exists b).
    unfold compose_line. rewrite Hr. cbn [negb is_empty footer_height_loop]. rewrite Hf, Hc. done.
Qed.

Lemma block_count_lines_fails_on_footnote_witness :
  let b := Block.mk [] [] Double 0 0 None in
  let fn := [Block.mk [line_of_segment (segment_of_str "note")] [] Double 0 0 None; b] in
  let c := mkCompositor None [Page.mk 1 54 [] []] {[ "a"%string := fn ]} 1 2 false 0 in
  let line := Line.mk 0 [segment_of_str "text"] ["a"%string] in
  Line.note_refs line = ["a"%string] /\ footnotes c !! "a"%string = Some fn /\ b ∈ fn /\
  Block.count_lines b = None /\
  (Block.line_spacing b = Double /\ Block.lines b = []) /\
  compose_line c Single 1 0 line = None.
Proof.
  intros b fn c line.
  destruct (block_count_lines_fails_on_footnote b c Single 1 0 line "a"%string [] fn) as [[H1 _] H2].
  assert (Hb : b ∈ fn) by (apply list_elem_of_further, list_elem_of_here).
  assert (Hn : Block.count_lines b = None) by reflexivity.
  split; [reflexivity|]. split; [reflexivity|]. split; [exact Hb|]. split; [exact Hn|].
  split; [exact (H1 Hn)|]. exact (H2 eq_refl eq_refl Hb Hn).
Defined.
